(** * TimeSliderController: a shallow embedding

    The time slider controller of the toolkit
    (Plugin/CppApi/source/TimeSliderController.cpp) turns the temporal range
    of the time-aware layers of a view into a number of steps, and keeps the
    start and end step of the view's current time extent.

    Conventions of the embedding.
    - A C++ [double] is a rational ([Q]).  In [TimeSliderController] the
      operations on doubles are exact, which is what binary64 computes on
      the whole numbers and halves used with it.  [Rounded] is the
      recomputation once more, with every operation on doubles followed by
      a rounding [rnd]: at the identity it is the exact recomputation, and
      at [Binary64.round64], the rounding of binary64 (to nearest, ties to
      even; the exponent is taken as unbounded, so that neither overflow
      nor underflow is modelled), it is what the machine computes.  The
      statements on the step count, on the choice of the interval and on
      the order of durations are about [Rounded] at [Binary64.round64].
    - An [int] argument is any integer; a theorem that needs it to fit an
      [int] says so.
    - The conversion of a [double] to [int] or [qint64] truncates toward
      zero and is undefined when the truncated value does not fit; a
      division by a zero [double] gives an infinity or a NaN, whose
      conversion is undefined too.  Undefined behaviour is [None].
    - [qint64] timestamps are unbounded integers (milliseconds since the
      epoch).
    - Signals and calls of the view's setter are recorded in the state, in
      the order they happen. *)

From Stdlib Require Import ZArith QArith Qround Qpower Floats List Bool Lia Lqa Permutation.
From Stdlib Require Uint63.
Import ListNotations.

Local Open Scope Z_scope.

(** ** C++ arithmetic *)

Module Cpp.

Definition int_min : Z := - 2 ^ 31.
Definition int_max : Z := 2 ^ 31 - 1.
Definition qint64_min : Z := - 2 ^ 63.
Definition qint64_max : Z := 2 ^ 63 - 1.

(** The integral part of a [double], toward zero. *)
Definition truncate (d : Q) : Z := Z.quot (Qnum d) (Z.pos (Qden d)).

(** [double] to a signed integer type holding [lo .. hi]. *)
Definition to_integral (lo hi : Z) (d : Q) : option Z :=
  let t := truncate d in
  if (lo <=? t) && (t <=? hi) then Some t else None.

Definition to_int : Q -> option Z := to_integral int_min int_max.
Definition to_qint64 : Q -> option Z := to_integral qint64_min qint64_max.

(** [a / b] on doubles, kept only when it is a finite number. *)
Definition fdiv (a b : Q) : option Q :=
  if Qeq_bool b 0 then None else Some (a / b)%Q.

(** [a < b] on doubles. *)
Definition Qltb (a b : Q) : bool := negb (Qle_bool b a).

Definition bind {A B : Type} (m : option A) (f : A -> option B) : option B :=
  match m with
  | Some a => f a
  | None => None
  end.

End Cpp.

Notation "x <- m ;; k" := (Cpp.bind m (fun x => k))
  (at level 61, m at next level, right associativity).

(** ** Binary64: what a [double] keeps of a number *)

Module Binary64.

(** [2 ^ e], for any integer [e]. *)
Definition pow2 (e : Z) : Q := (2 ^ e)%Q.

(** The exponent of a positive [q]: [2 ^ ilog2 q <= q < 2 ^ (ilog2 q + 1)]. *)
Definition ilog2 (q : Q) : Z :=
  let e := Z.log2 (Qnum q) - Z.log2 (Z.pos (Qden q)) in
  if Qle_bool (pow2 e) q then e else e - 1.

(** The nearest integer, the even one of two that are equally near. *)
Definition nearest_even (q : Q) : Z :=
  let f := Qfloor q in
  match (q - inject_Z f ?= 1 # 2)%Q with
  | Lt => f
  | Gt => f + 1
  | Eq => if Z.even f then f else f + 1
  end.

(** A positive [q] keeps 53 significant bits. *)
Definition round_positive (q : Q) : Q :=
  let e := ilog2 q - 52 in
  (inject_Z (nearest_even (q / pow2 e)) * pow2 e)%Q.

(** The double nearest to [q]. *)
Definition round64 (q : Q) : Q :=
  match (q ?= 0)%Q with
  | Eq => 0%Q
  | Gt => round_positive q
  | Lt => (- round_positive (- q))%Q
  end.

(** The number a finite double of the machine stands for. *)
Definition ofFloat (f : float) : option Q :=
  match Prim2SF f with
  | S754_zero _ => Some 0%Q
  | S754_finite s m e =>
      Some ((if s then - inject_Z (Z.pos m) else inject_Z (Z.pos m)) * pow2 e)%Q
  | _ => None
  end.

(** A [qint64] that is not negative, as a double of the machine. *)
Definition ofInteger (z : Z) : float := of_uint63 (Uint63.of_Z z).

(** [f] is the double that stands for [q]. *)
Definition holds (f : float) (q : Q) : bool :=
  match ofFloat f with
  | Some q' => Qeq_bool q' q
  | None => false
  end.

End Binary64.

(** ** Qt: QDateTime *)

Module QDateTime.

(** A date-time is null (default constructed) or a number of milliseconds
    since the epoch. *)
Inductive t : Type :=
| Null
| MSecs (msecs : Z).

(** Qt orders and compares date-times by their milliseconds since the
    epoch; for the null date-time that number is 0 (UTC). *)
Definition toMSecsSinceEpoch (d : t) : Z :=
  match d with
  | Null => 0
  | MSecs m => m
  end.

Definition fromMSecsSinceEpoch (m : Z) : t := MSecs m.

(** Adding to an invalid date-time gives an invalid date-time. *)
Definition addMSecs (d : t) (ms : Z) : t :=
  match d with
  | Null => Null
  | MSecs m => MSecs (m + ms)
  end.

Definition ltb (a b : t) : bool := toMSecsSinceEpoch a <? toMSecsSinceEpoch b.
Definition gtb (a b : t) : bool := ltb b a.
Definition eqb (a b : t) : bool := toMSecsSinceEpoch a =? toMSecsSinceEpoch b.

End QDateTime.

(** ** The runtime's value types: TimeExtent, TimeUnit, TimeValue

    These classes belong to the runtime the toolkit is built on.  A time
    extent is empty or has two bounds; a time value is empty or has a
    duration and a unit. *)

Inductive TimeExtent : Type :=
| EmptyExtent
| Extent (startTime endTime : QDateTime.t).

Module TimeExtent.

Definition isEmpty (e : TimeExtent) : bool :=
  match e with
  | EmptyExtent => true
  | Extent _ _ => false
  end.

(** The bounds of an empty extent are null date-times. *)
Definition startTime (e : TimeExtent) : QDateTime.t :=
  match e with
  | EmptyExtent => QDateTime.Null
  | Extent s _ => s
  end.

Definition endTime (e : TimeExtent) : QDateTime.t :=
  match e with
  | EmptyExtent => QDateTime.Null
  | Extent _ e' => e'
  end.

End TimeExtent.

Inductive TimeUnit : Type :=
| Unknown
| Centuries
| Decades
| Years
| Months
| Weeks
| Days
| Hours
| Minutes
| Seconds
| Milliseconds.

Definition TimeUnit_eqb (a b : TimeUnit) : bool :=
  match a, b with
  | Unknown, Unknown | Centuries, Centuries | Decades, Decades
  | Years, Years | Months, Months | Weeks, Weeks | Days, Days
  | Hours, Hours | Minutes, Minutes | Seconds, Seconds
  | Milliseconds, Milliseconds => true
  | _, _ => false
  end.

Inductive TimeValue : Type :=
| EmptyTimeValue
| MkTimeValue (duration : Q) (unit : TimeUnit).

Module TimeValue.

Definition isEmpty (v : TimeValue) : bool :=
  match v with
  | EmptyTimeValue => true
  | MkTimeValue _ _ => false
  end.

(** An empty time value has no duration and an unknown unit. *)
Definition duration (v : TimeValue) : Q :=
  match v with
  | EmptyTimeValue => 0%Q
  | MkTimeValue d _ => d
  end.

Definition unit (v : TimeValue) : TimeUnit :=
  match v with
  | EmptyTimeValue => Unknown
  | MkTimeValue _ u => u
  end.

End TimeValue.

(** ** The helpers of TimeSliderController.cpp *)

(** [unionTimeExtent], lines 43-53. *)
Definition unionTimeExtent (timeExtent otherTimeExtent : TimeExtent) : TimeExtent :=
  if TimeExtent.isEmpty otherTimeExtent then timeExtent
  else
    let startTime :=
      if QDateTime.ltb (TimeExtent.startTime timeExtent) (TimeExtent.startTime otherTimeExtent)
      then TimeExtent.startTime timeExtent
      else TimeExtent.startTime otherTimeExtent in
    let endTime :=
      if QDateTime.gtb (TimeExtent.endTime timeExtent) (TimeExtent.endTime otherTimeExtent)
      then TimeExtent.endTime timeExtent
      else TimeExtent.endTime otherTimeExtent in
    Extent startTime endTime.

(** [toTimeUnit], lines 58-77. *)
Definition toTimeUnit (milisecondsRange : Q) : TimeUnit :=
  let daysPerYear : Q := 365%Q in
  let millisecondsPerDay : Q := 86400000%Q in
  let millisecondsPerHour : Q := 3600000%Q in
  let millisecondsPerMinute : Q := 60000%Q in
  if Cpp.Qltb milisecondsRange millisecondsPerMinute then Seconds
  else if Cpp.Qltb milisecondsRange millisecondsPerHour then Minutes
  else if Cpp.Qltb milisecondsRange millisecondsPerDay then Hours
  else if Cpp.Qltb milisecondsRange (millisecondsPerDay * daysPerYear)%Q then Days
  else if Cpp.Qltb (millisecondsPerDay * daysPerYear * 100)%Q milisecondsRange then Centuries
  else Years.

(** [toMilliseconds], lines 82-118. *)
Definition toMilliseconds (timeValue : TimeValue) : Q :=
  let millisecondsPerDay : Q := 86400000%Q in
  let daysPerCentury : Q := 36500%Q in
  let daysPerDecade : Q := 3650%Q in
  let daysPerYear : Q := 365%Q in
  let mothsPerYear : Q := 12%Q in
  let millisecondsPerHour : Q := 3600000%Q in
  let millisecondsPerMinute : Q := 60000%Q in
  let millisecondsPerSecond : Q := 1000%Q in
  let duration := TimeValue.duration timeValue in
  (match TimeValue.unit timeValue with
   | Centuries => duration * millisecondsPerDay * daysPerCentury
   | Decades => duration * millisecondsPerDay * daysPerDecade
   | Years => duration * millisecondsPerDay * daysPerYear
   | Months => duration * (daysPerYear / mothsPerYear) * millisecondsPerDay
   | Weeks => duration * 604800000
   | Days => duration * millisecondsPerDay
   | Hours => duration * millisecondsPerHour
   | Minutes => duration * millisecondsPerMinute
   | Seconds => duration * millisecondsPerSecond
   | Milliseconds => duration
   | Unknown => duration
   end)%Q.

(** [operator >] on time values, lines 123-129. *)
Definition TimeValue_gt (timeValue otherTimeValue : TimeValue) : bool :=
  if TimeUnit_eqb (TimeValue.unit timeValue) (TimeValue.unit otherTimeValue)
  then Cpp.Qltb (TimeValue.duration otherTimeValue) (TimeValue.duration timeValue)
  else Cpp.Qltb (toMilliseconds otherTimeValue) (toMilliseconds timeValue).

(** [operator ==] on time extents, lines 134-138. *)
Definition TimeExtent_eq (timeExtent otherTimeExtent : TimeExtent) : bool :=
  QDateTime.eqb (TimeExtent.startTime timeExtent) (TimeExtent.startTime otherTimeExtent)
  && QDateTime.eqb (TimeExtent.endTime timeExtent) (TimeExtent.endTime otherTimeExtent).

(** ** The collaborators: layers and the view *)

Inductive LoadStatus : Type :=
| Loaded
| Loading
| FailedToLoad
| NotLoaded.

Module TimeAware.

(** What a time-aware layer reports. *)
Record t : Type := make {
  fullTimeExtent : TimeExtent;
  timeInterval : TimeValue;
  isTimeFilteringEnabled : bool
}.

End TimeAware.

Module Layer.

(** [timeAware] is the result of [dynamic_cast<TimeAware*>]. *)
Record t : Type := make {
  loadStatus : LoadStatus;
  isVisible : bool;
  timeAware : option TimeAware.t
}.

End Layer.

(** The rows of the layer list model; [at(i)] may be a null pointer. *)
Definition LayerListModel : Type := list (option Layer.t).

(** [m_mapView] and [m_sceneView]: at most one of them is set, and the view
    holds the time extent it currently shows. *)
Inductive GeoView : Type :=
| NoGeoView
| MapQuickView (timeExtent : TimeExtent)
| SceneQuickView (timeExtent : TimeExtent).

Inductive Signal : Type :=
| fullTimeExtentChanged
| numberOfStepsChanged
| stepTimesChanged
| startStepChanged
| endStepChanged
| currentTimeExtentChanged.

(** ** The controller *)

Module TimeSliderController.

(** Modelled from the spec: the header TimeSliderController.h, which
    declares the members, is not among the sources.  The spec gives the
    interval in milliseconds as a double, the number of steps and the two
    step indices as ints, and the step times as a sequence of timestamps.
    Next to the members stand the view the controller is attached to, the
    signals emitted so far and the extents passed to the view's
    [setTimeExtent] so far (both oldest first). *)
Record t : Type := make {
  m_geoView : GeoView;
  m_fullTimeExtent : TimeExtent;
  m_intervalMS : Q;
  m_numberOfSteps : Z;
  m_stepTimes : list QDateTime.t;
  m_startStep : Z;
  m_endStep : Z;
  emitted : list Signal;
  setTimeExtentCalls : list TimeExtent
}.

Definition emit (s : Signal) (c : t) : t :=
  make (m_geoView c) (m_fullTimeExtent c) (m_intervalMS c) (m_numberOfSteps c)
       (m_stepTimes c) (m_startStep c) (m_endStep c) (emitted c ++ [s])
       (setTimeExtentCalls c).

Definition with_fullTimeExtent (e : TimeExtent) (c : t) : t :=
  make (m_geoView c) e (m_intervalMS c) (m_numberOfSteps c)
       (m_stepTimes c) (m_startStep c) (m_endStep c) (emitted c)
       (setTimeExtentCalls c).

Definition with_intervalMS (i : Q) (c : t) : t :=
  make (m_geoView c) (m_fullTimeExtent c) i (m_numberOfSteps c)
       (m_stepTimes c) (m_startStep c) (m_endStep c) (emitted c)
       (setTimeExtentCalls c).

Definition with_numberOfSteps (n : Z) (c : t) : t :=
  make (m_geoView c) (m_fullTimeExtent c) (m_intervalMS c) n
       (m_stepTimes c) (m_startStep c) (m_endStep c) (emitted c)
       (setTimeExtentCalls c).

Definition with_stepTimes (l : list QDateTime.t) (c : t) : t :=
  make (m_geoView c) (m_fullTimeExtent c) (m_intervalMS c) (m_numberOfSteps c)
       l (m_startStep c) (m_endStep c) (emitted c)
       (setTimeExtentCalls c).

Definition with_steps (startStep endStep : Z) (c : t) : t :=
  make (m_geoView c) (m_fullTimeExtent c) (m_intervalMS c) (m_numberOfSteps c)
       (m_stepTimes c) startStep endStep (emitted c)
       (setTimeExtentCalls c).

(** [m_sceneView->setTimeExtent] or [m_mapView->setTimeExtent]: the view
    takes the extent it is given; without a view nothing is called.  A view
    that clamps or refuses the extent is this call followed by [viewShows]
    below. *)
Definition setTimeExtent (e : TimeExtent) (c : t) : t :=
  match m_geoView c with
  | SceneQuickView _ =>
      make (SceneQuickView e) (m_fullTimeExtent c) (m_intervalMS c) (m_numberOfSteps c)
           (m_stepTimes c) (m_startStep c) (m_endStep c) (emitted c)
           (setTimeExtentCalls c ++ [e])
  | MapQuickView _ =>
      make (MapQuickView e) (m_fullTimeExtent c) (m_intervalMS c) (m_numberOfSteps c)
           (m_stepTimes c) (m_startStep c) (m_endStep c) (emitted c)
           (setTimeExtentCalls c ++ [e])
  | NoGeoView => c
  end.

(** Lines 328-347. *)
Definition fullTimeExtent (c : t) : TimeExtent := m_fullTimeExtent c.
Definition fullExtentStart (c : t) : QDateTime.t := TimeExtent.startTime (m_fullTimeExtent c).
Definition fullExtentEnd (c : t) : QDateTime.t := TimeExtent.endTime (m_fullTimeExtent c).

(** [setFullTimeExtent], lines 352-359. *)
Definition setFullTimeExtent (fullTimeExtent : TimeExtent) (c : t) : t :=
  if TimeExtent_eq fullTimeExtent (m_fullTimeExtent c) then c
  else emit fullTimeExtentChanged (with_fullTimeExtent fullTimeExtent c).

(** [currentTimeExtent], lines 364-371. *)
Definition currentTimeExtent (c : t) : TimeExtent :=
  let geoViewExtent :=
    match m_geoView c with
    | SceneQuickView e => e
    | MapQuickView e => e
    | NoGeoView => m_fullTimeExtent c
    end in
  if TimeExtent.isEmpty geoViewExtent then m_fullTimeExtent c else geoViewExtent.

Definition currentExtentStart (c : t) : QDateTime.t := TimeExtent.startTime (currentTimeExtent c).
Definition currentExtentEnd (c : t) : QDateTime.t := TimeExtent.endTime (currentTimeExtent c).

(** [setNumberOfSteps], lines 306-313. *)
Definition setNumberOfSteps (numberOfSteps : Z) (c : t) : t :=
  if numberOfSteps =? m_numberOfSteps c then c
  else emit numberOfStepsChanged (with_numberOfSteps numberOfSteps c).

(** The step of a timestamp: [(ms - fullStartMs) / m_intervalMS] stored in
    an [int], lines 496-497. *)
Definition stepOf (c : t) (ms : Z) : option Z :=
  let fullStartMs := QDateTime.toMSecsSinceEpoch (fullExtentStart c) in
  q <- Cpp.fdiv (inject_Z (ms - fullStartMs)) (m_intervalMS c) ;;
  Cpp.to_int q.

(** [calculateStepPositions], lines 490-501. *)
Definition calculateStepPositions (c : t) : option t :=
  if TimeExtent.isEmpty (m_fullTimeExtent c) then Some c
  else
    startStep <- stepOf c (QDateTime.toMSecsSinceEpoch (currentExtentStart c)) ;;
    endStep <- stepOf c (QDateTime.toMSecsSinceEpoch (currentExtentEnd c)) ;;
    Some (emit endStepChanged (emit startStepChanged (with_steps startStep endStep c))).

(** The loop of [setStepTimes]: [count] more rounds from index [i]. *)
Fixpoint stepTimesFrom (start : QDateTime.t) (intervalMS : Q) (i : Z) (count : nat)
  : option (list QDateTime.t) :=
  match count with
  | O => Some []
  | S count' =>
      ms <- Cpp.to_qint64 (inject_Z i * intervalMS) ;;
      rest <- stepTimesFrom start intervalMS (i + 1) count' ;;
      Some (QDateTime.addMSecs start ms :: rest)
  end.

(** [setStepTimes], lines 315-323. *)
Definition setStepTimes (c : t) : option t :=
  times <- stepTimesFrom (TimeExtent.startTime (m_fullTimeExtent c)) (m_intervalMS c) 0
             (Z.to_nat (m_numberOfSteps c)) ;;
  Some (emit stepTimesChanged (with_stepTimes times c)).

(** The timestamp of a step index: [start + index * m_intervalMS] as a
    [qint64], lines 415-416, 438-439 and 461-463. *)
Definition timeOf (c : t) (intervalIndex : Z) : option QDateTime.t :=
  let start := QDateTime.toMSecsSinceEpoch (TimeExtent.startTime (m_fullTimeExtent c)) in
  ms <- Cpp.to_qint64 (inject_Z start + inject_Z intervalIndex * m_intervalMS c) ;;
  Some (QDateTime.fromMSecsSinceEpoch ms).

(** [setStartInterval], lines 410-426. *)
Definition setStartInterval (intervalIndex : Z) (c : t) : option t :=
  if TimeExtent.isEmpty (m_fullTimeExtent c) then Some c
  else
    newStart <- timeOf c intervalIndex ;;
    let newExtent := Extent newStart (currentExtentEnd c) in
    c' <- calculateStepPositions (setTimeExtent newExtent c) ;;
    Some (emit currentTimeExtentChanged c').

(** [setEndInterval], lines 433-449. *)
Definition setEndInterval (intervalIndex : Z) (c : t) : option t :=
  if TimeExtent.isEmpty (m_fullTimeExtent c) then Some c
  else
    newEnd <- timeOf c intervalIndex ;;
    let newExtent := Extent (currentExtentStart c) newEnd in
    c' <- calculateStepPositions (setTimeExtent newExtent c) ;;
    Some (emit currentTimeExtentChanged c').

(** [setStartAndEndIntervals], lines 456-473. *)
Definition setStartAndEndIntervals (startIndex endIndex : Z) (c : t) : option t :=
  if TimeExtent.isEmpty (m_fullTimeExtent c) then Some c
  else
    newStart <- timeOf c startIndex ;;
    newEnd <- timeOf c endIndex ;;
    let newExtent := Extent newStart newEnd in
    c' <- calculateStepPositions (setTimeExtent newExtent c) ;;
    Some (emit currentTimeExtentChanged c').

(** The layers that take part, lines 238-262: time aware, done loading,
    filtering by time, visible.  The subscription to [doneLoading] of a
    layer that is still loading changes no member and is left out. *)
Definition participating (row : option Layer.t) : option TimeAware.t :=
  match row with
  | None => None
  | Some layer =>
      match Layer.timeAware layer with
      | None => None
      | Some timeAwareLayer =>
          match Layer.loadStatus layer with
          | Loaded | FailedToLoad =>
              if negb (TimeAware.isTimeFilteringEnabled timeAwareLayer) then None
              else if negb (Layer.isVisible layer) then None
              else Some timeAwareLayer
          | _ => None
          end
      end
  end.

Fixpoint timeAwareLayers (rows : LayerListModel) : list TimeAware.t :=
  match rows with
  | [] => []
  | row :: rows' =>
      match participating row with
      | Some timeAwareLayer => timeAwareLayer :: timeAwareLayers rows'
      | None => timeAwareLayers rows'
      end
  end.

(** The interval kept after one more layer, lines 275-279. *)
Definition coarser (timeStepInterval timeAwareInterval : TimeValue) : TimeValue :=
  if TimeValue.isEmpty timeStepInterval then timeAwareInterval
  else if TimeValue_gt timeAwareInterval timeStepInterval then timeAwareInterval
  else timeStepInterval.

(** One round of the loop over the participating layers, lines 268-280. *)
Definition visit (acc : t * TimeValue) (timeAware : TimeAware.t) : t * TimeValue :=
  let (c, timeStepInterval) := acc in
  (setFullTimeExtent (unionTimeExtent (TimeAware.fullTimeExtent timeAware) (m_fullTimeExtent c)) c,
   coarser timeStepInterval (TimeAware.timeInterval timeAware)).

(** The interval used: the layers' one, or one unit estimated from the
    range, lines 286-290. *)
Definition resolve (timeStepInterval : TimeValue) (range : Z) : TimeValue :=
  if TimeValue.isEmpty timeStepInterval
  then MkTimeValue 1 (toTimeUnit (inject_Z range))
  else timeStepInterval.

(** [initializeTimeProperties], lines 232-301; [layers] is what
    [m_operationalLayers] points to, if anything. *)
Definition initializeTimeProperties (layers : option LayerListModel) (c : t) : option t :=
  match layers with
  | None => Some c
  | Some rows =>
      match timeAwareLayers rows with
      | [] => Some c
      | participants =>
          let (c1, timeStepInterval) := fold_left visit participants (c, EmptyTimeValue) in
          let start := QDateTime.toMSecsSinceEpoch (TimeExtent.startTime (m_fullTimeExtent c1)) in
          let end_ := QDateTime.toMSecsSinceEpoch (TimeExtent.endTime (m_fullTimeExtent c1)) in
          let range := end_ - start in
          let c2 := with_intervalMS (toMilliseconds (resolve timeStepInterval range)) c1 in
          q <- Cpp.fdiv (inject_Z range) (m_intervalMS c2) ;;
          numberOfSteps <- Cpp.to_int (q + 1)%Q ;;
          c3 <- calculateStepPositions (setNumberOfSteps numberOfSteps c2) ;;
          c4 <- setStepTimes c3 ;;
          Some (emit currentTimeExtentChanged c4)
      end
  end.

(** [onOperationalLayersChanged], lines 543-546. *)
Definition onOperationalLayersChanged (layers : option LayerListModel) (c : t) : option t :=
  initializeTimeProperties layers c.

Definition with_geoView (v : GeoView) (c : t) : t :=
  make v (m_fullTimeExtent c) (m_intervalMS c) (m_numberOfSteps c)
       (m_stepTimes c) (m_startStep c) (m_endStep c) (emitted c)
       (setTimeExtentCalls c).

(** [setGeoView] with [onMapChanged] or [onSceneChanged], lines 200-227 and
    551-574: [geoView] is the view given ([NoGeoView] when it is of neither
    class) and [layers] the operational layers of its map or scene, if it
    has one. *)
Definition setGeoView (geoView : GeoView) (layers : option LayerListModel) (c : t) : option t :=
  c1 <- match geoView with
        | NoGeoView => Some c
        | _ =>
            match layers with
            | None => Some (with_geoView geoView c)
            | Some rows => initializeTimeProperties (Some rows) (with_geoView geoView c)
            end
        end ;;
  c2 <- calculateStepPositions c1 ;;
  Some (emit currentTimeExtentChanged c2).

(** What can happen to a controller: its slots and setters are called, and
    the attached view changes the extent it shows. *)
Inductive Op : Type :=
| OperationalLayersChanged (layers : option LayerListModel)
| SetGeoView (geoView : GeoView) (layers : option LayerListModel)
| SetStartInterval (intervalIndex : Z)
| SetEndInterval (intervalIndex : Z)
| SetStartAndEndIntervals (startIndex endIndex : Z)
| ViewShows (e : TimeExtent).

Definition viewShows (e : TimeExtent) (c : t) : t :=
  match m_geoView c with
  | NoGeoView => c
  | MapQuickView _ => with_geoView (MapQuickView e) c
  | SceneQuickView _ => with_geoView (SceneQuickView e) c
  end.

Definition step (op : Op) (c : t) : option t :=
  match op with
  | OperationalLayersChanged layers => onOperationalLayersChanged layers c
  | SetGeoView geoView layers => setGeoView geoView layers c
  | SetStartInterval i => setStartInterval i c
  | SetEndInterval i => setEndInterval i c
  | SetStartAndEndIntervals s e => setStartAndEndIntervals s e c
  | ViewShows e => Some (viewShows e c)
  end.

Fixpoint run (ops : list Op) (c : t) : option t :=
  match ops with
  | [] => Some c
  | op :: ops' => c' <- step op c ;; run ops' c'
  end.

(** [setEndStep], lines 478-485. *)
Definition setEndStep (endStep : Z) (c : t) : t :=
  if m_endStep c =? endStep then c
  else emit endStepChanged (with_steps (m_startStep c) endStep c).

(** [setStartStep], lines 517-524. *)
Definition setStartStep (startStep : Z) (c : t) : t :=
  if m_startStep c =? startStep then c
  else emit startStepChanged (with_steps startStep (m_endStep c) c).

End TimeSliderController.

(** ** The recomputation on rounded doubles

    Lines 58-129 and 232-323 once more, every operation on doubles followed
    by [rnd].  What does not compute on doubles is taken from
    [TimeSliderController]. *)

Module Rounded.

Import TimeSliderController.

Section WithRounding.

Variable rnd : Q -> Q.

(** [toTimeUnit], lines 58-77. *)
Definition toTimeUnit (milisecondsRange : Q) : TimeUnit :=
  let daysPerYear : Q := 365%Q in
  let millisecondsPerDay : Q := 86400000%Q in
  let millisecondsPerHour : Q := 3600000%Q in
  let millisecondsPerMinute : Q := 60000%Q in
  if Cpp.Qltb milisecondsRange millisecondsPerMinute then Seconds
  else if Cpp.Qltb milisecondsRange millisecondsPerHour then Minutes
  else if Cpp.Qltb milisecondsRange millisecondsPerDay then Hours
  else if Cpp.Qltb milisecondsRange (rnd (millisecondsPerDay * daysPerYear))%Q then Days
  else if Cpp.Qltb (rnd (rnd (millisecondsPerDay * daysPerYear) * 100))%Q milisecondsRange
       then Centuries
  else Years.

(** [toMilliseconds], lines 82-118. *)
Definition toMilliseconds (timeValue : TimeValue) : Q :=
  let millisecondsPerDay : Q := 86400000%Q in
  let daysPerCentury : Q := 36500%Q in
  let daysPerDecade : Q := 3650%Q in
  let daysPerYear : Q := 365%Q in
  let mothsPerYear : Q := 12%Q in
  let millisecondsPerHour : Q := 3600000%Q in
  let millisecondsPerMinute : Q := 60000%Q in
  let millisecondsPerSecond : Q := 1000%Q in
  let duration := TimeValue.duration timeValue in
  (match TimeValue.unit timeValue with
   | Centuries => rnd (rnd (duration * millisecondsPerDay) * daysPerCentury)
   | Decades => rnd (rnd (duration * millisecondsPerDay) * daysPerDecade)
   | Years => rnd (rnd (duration * millisecondsPerDay) * daysPerYear)
   | Months => rnd (rnd (duration * rnd (daysPerYear / mothsPerYear)) * millisecondsPerDay)
   | Weeks => rnd (duration * 604800000)
   | Days => rnd (duration * millisecondsPerDay)
   | Hours => rnd (duration * millisecondsPerHour)
   | Minutes => rnd (duration * millisecondsPerMinute)
   | Seconds => rnd (duration * millisecondsPerSecond)
   | Milliseconds => duration
   | Unknown => duration
   end)%Q.

(** [operator >] on time values, lines 123-129. *)
Definition TimeValue_gt (timeValue otherTimeValue : TimeValue) : bool :=
  if TimeUnit_eqb (TimeValue.unit timeValue) (TimeValue.unit otherTimeValue)
  then Cpp.Qltb (TimeValue.duration otherTimeValue) (TimeValue.duration timeValue)
  else Cpp.Qltb (toMilliseconds otherTimeValue) (toMilliseconds timeValue).

(** Lines 275-279. *)
Definition coarser (timeStepInterval timeAwareInterval : TimeValue) : TimeValue :=
  if TimeValue.isEmpty timeStepInterval then timeAwareInterval
  else if TimeValue_gt timeAwareInterval timeStepInterval then timeAwareInterval
  else timeStepInterval.

(** Lines 268-280. *)
Definition visit (acc : t * TimeValue) (timeAware : TimeAware.t) : t * TimeValue :=
  let (c, timeStepInterval) := acc in
  (setFullTimeExtent (unionTimeExtent (TimeAware.fullTimeExtent timeAware) (m_fullTimeExtent c)) c,
   coarser timeStepInterval (TimeAware.timeInterval timeAware)).

(** Lines 286-290; the [qint64] range becomes a double. *)
Definition resolve (timeStepInterval : TimeValue) (range : Z) : TimeValue :=
  if TimeValue.isEmpty timeStepInterval
  then MkTimeValue 1 (toTimeUnit (rnd (inject_Z range)))
  else timeStepInterval.

(** [a / b] on doubles, kept only when it is a finite number. *)
Definition fdiv (a b : Q) : option Q :=
  if Qeq_bool b 0 then None else Some (rnd (a / b))%Q.

(** Lines 496-497. *)
Definition stepOf (c : t) (ms : Z) : option Z :=
  let fullStartMs := QDateTime.toMSecsSinceEpoch (fullExtentStart c) in
  q <- fdiv (rnd (inject_Z (ms - fullStartMs))) (m_intervalMS c) ;;
  Cpp.to_int q.

(** [calculateStepPositions], lines 490-501. *)
Definition calculateStepPositions (c : t) : option t :=
  if TimeExtent.isEmpty (m_fullTimeExtent c) then Some c
  else
    startStep <- stepOf c (QDateTime.toMSecsSinceEpoch (currentExtentStart c)) ;;
    endStep <- stepOf c (QDateTime.toMSecsSinceEpoch (currentExtentEnd c)) ;;
    Some (emit endStepChanged (emit startStepChanged (with_steps startStep endStep c))).

(** The loop of [setStepTimes], line 320. *)
Fixpoint stepTimesFrom (start : QDateTime.t) (intervalMS : Q) (i : Z) (count : nat)
  : option (list QDateTime.t) :=
  match count with
  | O => Some []
  | S count' =>
      ms <- Cpp.to_qint64 (rnd (rnd (inject_Z i) * intervalMS)) ;;
      rest <- stepTimesFrom start intervalMS (i + 1) count' ;;
      Some (QDateTime.addMSecs start ms :: rest)
  end.

(** [setStepTimes], lines 315-323. *)
Definition setStepTimes (c : t) : option t :=
  times <- stepTimesFrom (TimeExtent.startTime (m_fullTimeExtent c)) (m_intervalMS c) 0
             (Z.to_nat (m_numberOfSteps c)) ;;
  Some (emit stepTimesChanged (with_stepTimes times c)).

(** [initializeTimeProperties], lines 232-301. *)
Definition initializeTimeProperties (layers : option LayerListModel) (c : t) : option t :=
  match layers with
  | None => Some c
  | Some rows =>
      match timeAwareLayers rows with
      | [] => Some c
      | participants =>
          let (c1, timeStepInterval) := fold_left visit participants (c, EmptyTimeValue) in
          let start := QDateTime.toMSecsSinceEpoch (TimeExtent.startTime (m_fullTimeExtent c1)) in
          let end_ := QDateTime.toMSecsSinceEpoch (TimeExtent.endTime (m_fullTimeExtent c1)) in
          let range := end_ - start in
          let c2 := with_intervalMS (toMilliseconds (resolve timeStepInterval range)) c1 in
          q <- fdiv (rnd (inject_Z range)) (m_intervalMS c2) ;;
          numberOfSteps <- Cpp.to_int (rnd (q + 1))%Q ;;
          c3 <- calculateStepPositions (setNumberOfSteps numberOfSteps c2) ;;
          c4 <- setStepTimes c3 ;;
          Some (emit currentTimeExtentChanged c4)
      end
  end.

End WithRounding.

End Rounded.

(** ** Vocabulary of the properties *)

(** The range of an extent in milliseconds, as lines 282-284 take it. *)
Definition rangeMS (e : TimeExtent) : Z :=
  QDateTime.toMSecsSinceEpoch (TimeExtent.endTime e)
  - QDateTime.toMSecsSinceEpoch (TimeExtent.startTime e).

(** [outer] covers [inner]: nothing to cover when [inner] is empty. *)
Definition contains (outer inner : TimeExtent) : Prop :=
  match inner, outer with
  | EmptyExtent, _ => True
  | Extent _ _, EmptyExtent => False
  | Extent s e, Extent s' e' =>
      QDateTime.toMSecsSinceEpoch s' <= QDateTime.toMSecsSinceEpoch s
      /\ QDateTime.toMSecsSinceEpoch e <= QDateTime.toMSecsSinceEpoch e'
  end.

(** The members the step count rests on. *)
Definition axis (c : TimeSliderController.t) : TimeExtent * Q * Z * list QDateTime.t :=
  (TimeSliderController.m_fullTimeExtent c, TimeSliderController.m_intervalMS c,
   TimeSliderController.m_numberOfSteps c, TimeSliderController.m_stepTimes c).

(** There are as many step times as steps (none for a negative number of
    steps). *)
Definition stepTimesCounted (c : TimeSliderController.t) : Prop :=
  Z.of_nat (length (TimeSliderController.m_stepTimes c))
  = Z.max 0 (TimeSliderController.m_numberOfSteps c).

(** The intervals of the participating layers of [rows], in their order. *)
Definition layerIntervals (rows : LayerListModel) : list TimeValue :=
  map TimeAware.timeInterval (TimeSliderController.timeAwareLayers rows).

(** The interval the loop over the participating layers of [rows] ends with. *)
Definition selectedInterval (rows : LayerListModel) : TimeValue :=
  fold_left TimeSliderController.coarser (layerIntervals rows) EmptyTimeValue.

(** The same loop on rounded doubles. *)
Definition roundedInterval (rnd : Q -> Q) (rows : LayerListModel) : TimeValue :=
  fold_left (Rounded.coarser rnd) (layerIntervals rows) EmptyTimeValue.

(** The start and end step are those of the current extent: asked of a
    non-empty full extent. *)
Definition stepsInSync (c : TimeSliderController.t) : Prop :=
  TimeExtent.isEmpty (TimeSliderController.m_fullTimeExtent c) = false ->
  TimeSliderController.stepOf c
    (QDateTime.toMSecsSinceEpoch (TimeSliderController.currentExtentStart c))
  = Some (TimeSliderController.m_startStep c)
  /\ TimeSliderController.stepOf c
       (QDateTime.toMSecsSinceEpoch (TimeSliderController.currentExtentEnd c))
     = Some (TimeSliderController.m_endStep c).

(** ** Concrete controllers, extents and layers *)

Module Scenario.

Import TimeSliderController.

Definition extent (startMs endMs : Z) : TimeExtent :=
  Extent (QDateTime.MSecs startMs) (QDateTime.MSecs endMs).

(** A loaded, visible layer that filters by time. *)
Definition layer (e : TimeExtent) (interval : TimeValue) : option Layer.t :=
  Some (Layer.make Loaded true (Some (TimeAware.make e interval true))).

(** A controller with no view, an empty full extent and no steps. *)
Definition idle : t := make NoGeoView EmptyExtent 0 0 [] 0 0 [] [].

(** The same, attached to a map view that shows no time extent. *)
Definition onMap : t := make (MapQuickView EmptyExtent) EmptyExtent 0 0 [] 0 0 [] [].

(** Three seconds of data, reported every second. *)
Definition everySecond : LayerListModel :=
  [layer (extent 0 3000) (MkTimeValue 1 Seconds)].


(** Layers reporting one day, two hours and one week. *)
Definition dayHoursWeek : LayerListModel :=
  [layer (extent 0 3000) (MkTimeValue 1 Days);
   layer (extent 0 3000) (MkTimeValue 2 Hours);
   layer (extent 0 3000) (MkTimeValue 1 Weeks)].

(** Four seconds of data from 1000 ms on, reported every second. *)
Definition fromOneSecond : LayerListModel :=
  [layer (extent 1000 5000) (MkTimeValue 1 Seconds)].

(** A controller with an empty full extent and no steps, attached to a map
    view that shows [e]. *)
Definition showing (e : TimeExtent) : t :=
  make (MapQuickView e) EmptyExtent 0 0 [] 0 0 [] [].

(** What a recomputation over [everySecond] makes of [idle]. *)
Definition idleBySeconds : t :=
  make NoGeoView (extent 0 3000) 1000 4
       [QDateTime.MSecs 0; QDateTime.MSecs 1000; QDateTime.MSecs 2000; QDateTime.MSecs 3000]
       0 3
       [fullTimeExtentChanged; numberOfStepsChanged; startStepChanged; endStepChanged;
        stepTimesChanged; currentTimeExtentChanged]
       [].

(** On a map view, with four steps of one second. *)
Definition bySeconds : t :=
  make (MapQuickView EmptyExtent) (extent 0 3000) 1000 4
       [QDateTime.MSecs 0; QDateTime.MSecs 1000; QDateTime.MSecs 2000; QDateTime.MSecs 3000]
       0 3 [] [].


(** One layer over a shorter range, and one that reports no range. *)
Definition shorter : LayerListModel :=
  [layer (extent 1000 2000) (MkTimeValue 1 Seconds)].

Definition withoutExtent : LayerListModel :=
  [layer EmptyExtent (MkTimeValue 1 Seconds)].

(** Layers that report no interval, over one minute of data. *)
Definition noInterval : LayerListModel :=
  [layer (extent 0 60000) EmptyTimeValue; layer (extent 1000 2000) EmptyTimeValue].

(** Layers reporting two days back, nothing, and three days back. *)
Definition daysBack : LayerListModel :=
  [layer (extent 0 3000) (MkTimeValue (-2) Days);
   layer (extent 0 3000) EmptyTimeValue;
   layer (extent 0 3000) (MkTimeValue (-3) Days)].

(** Eleven months of 365/12 days, to the millisecond, reported every eleven
    months. *)
Definition elevenMonths : LayerListModel :=
  [layer (extent 0 28908000000) (MkTimeValue 11 Months)].

(** An extent that ends before it starts. *)
Definition backwards : LayerListModel :=
  [layer (extent 3000 0) (MkTimeValue 1 Seconds)].

(** More steps than an [int] holds. *)
Definition everyMsOfACentury : LayerListModel :=
  [layer (extent 0 3153600000000) (MkTimeValue 1 Milliseconds)].

(** A range beyond 2 ^ 53 ms: three intervals of 2 ^ 53 - 2 ms. *)
Definition beyondDoubles : LayerListModel :=
  [layer (extent 0 27021597764222970) (MkTimeValue 9007199254740990 Milliseconds)].

End Scenario.

(** ** Arithmetic of the conversions *)

Section Conversions.

Import Cpp.

Lemma bind_Some {A B : Type} (m : option A) (f : A -> option B) (b : B) :
  Cpp.bind m f = Some b -> exists a, m = Some a /\ f a = Some b.
Proof.
  destruct m as [a|]; simpl; intros H; [exists a; auto | discriminate].
Qed.

Lemma Qltb_lt (a b : Q) : Qltb a b = true <-> (a < b)%Q.
Proof.
  unfold Qltb. rewrite negb_true_iff, <- not_true_iff_false, Qle_bool_iff.
  split; [apply Qnot_le_lt | apply Qlt_not_le].
Qed.

Lemma Qltb_ge (a b : Q) : Qltb a b = false <-> (b <= a)%Q.
Proof.
  unfold Qltb. rewrite negb_false_iff. apply Qle_bool_iff.
Qed.

Lemma truncate_nonneg (q : Q) : (0 <= q)%Q -> truncate q = Qfloor q.
Proof.
  destruct q as [n d]. unfold Qle, truncate, Qfloor. simpl. intros H.
  apply Z.quot_div_nonneg; lia.
Qed.

Lemma truncate_opp (q : Q) : truncate (- q) = - truncate q.
Proof.
  destruct q as [n d]. unfold truncate. simpl. apply Z.quot_opp_l. lia.
Qed.

Lemma truncate_comp (q q' : Q) : (q == q')%Q -> truncate q = truncate q'.
Proof.
  intros E. destruct (Qlt_le_dec q 0) as [Hneg|Hpos].
  - assert (E' : (- q == - q')%Q) by (rewrite E; reflexivity).
    apply Z.opp_inj. rewrite <- !truncate_opp.
    rewrite !truncate_nonneg by lra. now apply Qfloor_comp.
  - rewrite !truncate_nonneg by lra. now apply Qfloor_comp.
Qed.

Lemma truncate_inject_Z (z : Z) : truncate (inject_Z z) = z.
Proof. unfold truncate. simpl. apply Z.quot_1_r. Qed.

Lemma Qfloor_unique (q : Q) (z : Z) :
  (inject_Z z <= q)%Q -> (q < inject_Z (z + 1))%Q -> Qfloor q = z.
Proof.
  intros Hlo Hhi.
  pose proof (Qfloor_le q) as Hf. pose proof (Qlt_floor q) as Hc.
  assert (z < Qfloor q + 1) by (rewrite Zlt_Qlt; lra).
  assert (Qfloor q < z + 1) by (rewrite Zlt_Qlt; lra).
  lia.
Qed.

Lemma Qfloor_succ (q : Q) : Qfloor (q + 1) = Qfloor q + 1.
Proof.
  pose proof (Qfloor_le q) as Hf. pose proof (Qlt_floor q) as Hc.
  apply Qfloor_unique; rewrite !inject_Z_plus in *;
    change (inject_Z 1) with 1%Q in *; lra.
Qed.

Lemma truncate_mono_nonneg (q q' : Q) :
  (0 <= q)%Q -> (q <= q')%Q -> truncate q <= truncate q'.
Proof.
  intros H0 H. rewrite !truncate_nonneg by lra. now apply Qfloor_resp_le.
Qed.

Lemma to_integral_Some (lo hi : Z) (d : Q) (z : Z) :
  to_integral lo hi d = Some z <-> z = truncate d /\ lo <= z <= hi.
Proof.
  unfold to_integral. destruct ((lo <=? truncate d) && (truncate d <=? hi)) eqn:E.
  - apply andb_true_iff in E. rewrite !Z.leb_le in E.
    split; [intros [= <-]; auto | intros [-> _]; reflexivity].
  - apply andb_false_iff in E. rewrite !Z.leb_gt in E.
    split; [discriminate | intros [-> ?]; lia].
Qed.

Lemma fdiv_Some (a b q : Q) :
  fdiv a b = Some q <-> ~ (b == 0)%Q /\ q = (a / b)%Q.
Proof.
  unfold fdiv. destruct (Qeq_bool b 0) eqn:E.
  - apply Qeq_bool_iff in E. split; [discriminate | intros [H _]; contradiction].
  - apply Qeq_bool_neq in E. split; [intros [= <-]; auto | intros [_ ->]; reflexivity].
Qed.

Lemma inject_Z_nonneg (z : Z) : 0 <= z -> (0 <= inject_Z z)%Q.
Proof. intros H. unfold Qle. simpl. lia. Qed.

Lemma Qdiv_nonneg (a b : Q) : (0 <= a)%Q -> (0 < b)%Q -> (0 <= a / b)%Q.
Proof.
  intros Ha Hb. apply Qle_shift_div_l; [assumption | lra].
Qed.


End Conversions.

(** ** What each operation leaves alone *)

Section Frames.

Import TimeSliderController.

Lemma calculateStepPositions_frame (c c' : t) :
  calculateStepPositions c = Some c' ->
  m_geoView c' = m_geoView c /\ m_fullTimeExtent c' = m_fullTimeExtent c
  /\ m_intervalMS c' = m_intervalMS c /\ m_numberOfSteps c' = m_numberOfSteps c
  /\ m_stepTimes c' = m_stepTimes c /\ setTimeExtentCalls c' = setTimeExtentCalls c.
Proof.
  unfold calculateStepPositions.
  destruct (TimeExtent.isEmpty (m_fullTimeExtent c)).
  - intros [= <-]. repeat split.
  - intros H. apply bind_Some in H as (s & _ & H). apply bind_Some in H as (e & _ & H).
    injection H as <-. repeat split.
Qed.

Lemma calculateStepPositions_steps (c c' : t) :
  calculateStepPositions c = Some c' ->
  TimeExtent.isEmpty (m_fullTimeExtent c) = false ->
  stepOf c (QDateTime.toMSecsSinceEpoch (currentExtentStart c)) = Some (m_startStep c')
  /\ stepOf c (QDateTime.toMSecsSinceEpoch (currentExtentEnd c)) = Some (m_endStep c').
Proof.
  unfold calculateStepPositions. intros H E. rewrite E in H.
  apply bind_Some in H as (s & Hs & H). apply bind_Some in H as (e & He & H).
  injection H as <-. simpl. auto.
Qed.

Lemma setStepTimes_frame (c c' : t) :
  setStepTimes c = Some c' ->
  m_geoView c' = m_geoView c /\ m_fullTimeExtent c' = m_fullTimeExtent c
  /\ m_intervalMS c' = m_intervalMS c /\ m_numberOfSteps c' = m_numberOfSteps c
  /\ m_startStep c' = m_startStep c /\ m_endStep c' = m_endStep c
  /\ setTimeExtentCalls c' = setTimeExtentCalls c
  /\ stepTimesFrom (TimeExtent.startTime (m_fullTimeExtent c)) (m_intervalMS c) 0
       (Z.to_nat (m_numberOfSteps c)) = Some (m_stepTimes c').
Proof.
  unfold setStepTimes. intros H. apply bind_Some in H as (l & Hl & H).
  injection H as <-. simpl. repeat split. exact Hl.
Qed.

Lemma setNumberOfSteps_spec (n : Z) (c : t) :
  m_numberOfSteps (setNumberOfSteps n c) = n
  /\ m_geoView (setNumberOfSteps n c) = m_geoView c
  /\ m_fullTimeExtent (setNumberOfSteps n c) = m_fullTimeExtent c
  /\ m_intervalMS (setNumberOfSteps n c) = m_intervalMS c.
Proof.
  unfold setNumberOfSteps. destruct (n =? m_numberOfSteps c) eqn:E.
  - apply Z.eqb_eq in E. auto.
  - simpl. auto.
Qed.

Lemma visit_geoView (l : list TimeAware.t) (c : t) (v : TimeValue) :
  m_geoView (fst (fold_left visit l (c, v))) = m_geoView c.
Proof.
  revert c v. induction l as [|a l IH]; intros c v; simpl; [reflexivity|].
  rewrite IH. unfold setFullTimeExtent.
  destruct (TimeExtent_eq _ _); reflexivity.
Qed.

(** The interval part of the loop does not depend on the extents. *)
Lemma visit_interval (l : list TimeAware.t) (c : t) (v : TimeValue) :
  snd (fold_left visit l (c, v)) = fold_left coarser (map TimeAware.timeInterval l) v.
Proof.
  revert c v. induction l as [|a l IH]; intros c v; simpl; [reflexivity|].
  apply IH.
Qed.

End Frames.

(** ** What a recomputation that runs computes *)

Section Recomputation.

Import TimeSliderController.

Lemma initializeTimeProperties_skips (rows : LayerListModel) (c : t) :
  timeAwareLayers rows = [] -> initializeTimeProperties (Some rows) c = Some c.
Proof. unfold initializeTimeProperties. now intros ->. Qed.

Lemma initializeTimeProperties_runs (rows : LayerListModel) (c c' : t) :
  initializeTimeProperties (Some rows) c = Some c' ->
  timeAwareLayers rows <> [] ->
  let c1 := fst (fold_left visit (timeAwareLayers rows) (c, EmptyTimeValue)) in
  m_fullTimeExtent c' = m_fullTimeExtent c1
  /\ m_geoView c' = m_geoView c
  /\ m_intervalMS c'
     = toMilliseconds (resolve (selectedInterval rows) (rangeMS (m_fullTimeExtent c1)))
  /\ (exists q, Cpp.fdiv (inject_Z (rangeMS (m_fullTimeExtent c'))) (m_intervalMS c') = Some q
                /\ Cpp.to_int (q + 1)%Q = Some (m_numberOfSteps c'))
  /\ stepTimesFrom (fullExtentStart c') (m_intervalMS c') 0
       (Z.to_nat (m_numberOfSteps c')) = Some (m_stepTimes c').
Proof.
  unfold initializeTimeProperties, selectedInterval, layerIntervals. intros H Hne.
  destruct (timeAwareLayers rows) as [|a l] eqn:Hl; [contradiction|].
  rewrite <- (visit_interval (a :: l) c EmptyTimeValue).
  destruct (fold_left visit (a :: l) (c, EmptyTimeValue)) as [c1 ts] eqn:Hfold.
  pose proof (visit_geoView (a :: l) c EmptyTimeValue) as Hview.
  rewrite Hfold in Hview. cbn [fst snd] in *.
  apply bind_Some in H as (q & Hq & H). apply bind_Some in H as (n & Hn & H).
  apply bind_Some in H as (c3 & H3 & H). apply bind_Some in H as (c4 & H4 & H).
  injection H as <-.
  apply calculateStepPositions_frame in H3 as (V3 & F3 & I3 & N3 & _).
  apply setStepTimes_frame in H4 as (V4 & F4 & I4 & N4 & _ & _ & _ & T4).
  destruct (setNumberOfSteps_spec n
              (with_intervalMS (toMilliseconds (resolve ts
                 (QDateTime.toMSecsSinceEpoch (TimeExtent.endTime (m_fullTimeExtent c1))
                  - QDateTime.toMSecsSinceEpoch (TimeExtent.startTime (m_fullTimeExtent c1))))) c1))
    as (N & V & F & I).
  rewrite N in N3. rewrite V in V3. rewrite F in F3. rewrite I in I3.
  cbn [m_geoView m_fullTimeExtent m_intervalMS m_numberOfSteps m_stepTimes emit with_intervalMS] in *.
  unfold fullExtentStart, rangeMS. cbn [m_fullTimeExtent m_intervalMS m_numberOfSteps m_stepTimes emit].
  rewrite F3, I3, N3 in *. rewrite F4, I4, N4.
  repeat split; try congruence.
  exists q. auto.
Qed.

End Recomputation.

(** ** The step count and the step times *)

Section Steps.

Import TimeSliderController.

Lemma stepTimesFrom_length (start : QDateTime.t) (intervalMS : Q) (count : nat) :
  forall (i : Z) (l : list QDateTime.t),
    stepTimesFrom start intervalMS i count = Some l -> length l = count.
Proof.
  induction count as [|count IH]; intros i l H; simpl in H.
  - now injection H as <-.
  - apply bind_Some in H as (ms & _ & H). apply bind_Some in H as (rest & Hrest & H).
    injection H as <-. simpl. f_equal. eauto.
Qed.


Lemma numberOfSteps_formula (range : Z) (intervalMS q : Q) (n : Z) :
  0 <= range -> (0 < intervalMS)%Q ->
  Cpp.fdiv (inject_Z range) intervalMS = Some q ->
  Cpp.to_int (q + 1)%Q = Some n ->
  n = Qfloor (inject_Z range / intervalMS) + 1.
Proof.
  intros Hr Hi Hq Hn. apply fdiv_Some in Hq as [_ ->].
  apply to_integral_Some in Hn as [-> _].
  assert (0 <= inject_Z range / intervalMS)%Q.
  { apply Qdiv_nonneg; [|assumption]. now apply inject_Z_nonneg. }
  generalize dependent (inject_Z range / intervalMS)%Q. intros x Hx.
  rewrite truncate_nonneg by lra. apply Qfloor_succ.
Qed.

End Steps.

(** ** The rounding of binary64 *)

Section Rounding.

Import Binary64.

Lemma pow2_pos (e : Z) : (0 < pow2 e)%Q.
Proof. apply Qpower_0_lt. reflexivity. Qed.

Lemma pow2_add (a b : Z) : (pow2 (a + b) == pow2 a * pow2 b)%Q.
Proof. apply Qpower_plus. discriminate. Qed.

Lemma pow2_le (a b : Z) : a <= b -> (pow2 a <= pow2 b)%Q.
Proof. intros H. apply Qpower_le_compat_l; [exact H | discriminate]. Qed.

Lemma pow2_lt_inv (a b : Z) : (pow2 a < pow2 b)%Q -> a < b.
Proof. intros H. apply (Qpower_lt_compat_l_inv 2); [exact H | reflexivity]. Qed.

Lemma pow2_whole (n : Z) : 0 <= n -> (pow2 n == inject_Z (2 ^ n))%Q.
Proof. intros H. unfold pow2. rewrite Zpower_Qpower by exact H. reflexivity. Qed.

Lemma pow2_opp (a : Z) : (pow2 a * pow2 (- a) == 1)%Q.
Proof. rewrite <- pow2_add. replace (a + - a) with 0 by ring. reflexivity. Qed.

Lemma Qdiv_pow2 (q : Q) (e : Z) : (q / pow2 e == q * pow2 (- e))%Q.
Proof.
  pose proof (pow2_pos e) as P. pose proof (pow2_opp e) as O.
  apply (Qmult_inj_r _ _ (pow2 e)); [lra |].
  rewrite Qmult_comm, Qmult_div_r by lra.
  rewrite <- Qmult_assoc, (Qmult_comm (pow2 (- e))), O. ring.
Qed.

(** A positive number lies between two powers of two that follow each
    other. *)
Lemma ilog2_spec (q : Q) :
  (0 < q)%Q -> (pow2 (ilog2 q) <= q)%Q /\ (q < pow2 (ilog2 q + 1))%Q.
Proof.
  intros Hq. destruct q as [n d]. unfold ilog2. cbn [Qnum Qden].
  assert (Hn : 0 < n) by (unfold Qlt in Hq; cbn in Hq; lia).
  pose proof (Z.log2_spec n Hn) as [Hn1 Hn2].
  pose proof (Z.log2_spec (Z.pos d) (Pos2Z.is_pos d)) as [Hd1 Hd2].
  pose proof (Z.log2_nonneg n) as Na. pose proof (Z.log2_nonneg (Z.pos d)) as Nb.
  set (a := Z.log2 n) in *. set (b := Z.log2 (Z.pos d)) in *.
  assert (Pa : (pow2 a == inject_Z (2 ^ a))%Q) by (apply pow2_whole; lia).
  assert (Pb : (pow2 b == inject_Z (2 ^ b))%Q) by (apply pow2_whole; lia).
  assert (Pa1 : (pow2 (a + 1) == inject_Z (2 ^ (a + 1)))%Q) by (apply pow2_whole; lia).
  assert (Pb1 : (pow2 (b + 1) == inject_Z (2 ^ (b + 1)))%Q) by (apply pow2_whole; lia).
  assert (En : (inject_Z n == (n # d) * inject_Z (Z.pos d))%Q).
  { rewrite (Qmake_Qdiv n d). field. intros H. unfold Qeq in H. cbn in H. lia. }
  assert (Up : (n # d < pow2 (a - b + 1))%Q).
  { apply (Qmult_lt_r _ _ (pow2 b)); [apply pow2_pos |].
    rewrite <- pow2_add. replace (a - b + 1 + b) with (a + 1) by ring.
    apply Qle_lt_trans with ((n # d) * inject_Z (Z.pos d))%Q.
    - apply Qmult_le_l; [exact Hq |]. rewrite Pb. rewrite <- Zle_Qle. exact Hd1.
    - rewrite <- En, Pa1. rewrite <- Zlt_Qlt. exact Hn2. }
  assert (Lo : (pow2 (a - b - 1) < n # d)%Q).
  { apply (Qmult_lt_r _ _ (pow2 (b + 1))); [apply pow2_pos |].
    rewrite <- pow2_add. replace (a - b - 1 + (b + 1)) with a by ring.
    apply Qle_lt_trans with ((n # d) * inject_Z (Z.pos d))%Q.
    - rewrite <- En, Pa. rewrite <- Zle_Qle. exact Hn1.
    - apply Qmult_lt_l; [exact Hq |]. rewrite Pb1. rewrite <- Zlt_Qlt. exact Hd2. }
  destruct (Qle_bool (pow2 (a - b)) (n # d)) eqn:E.
  - apply Qle_bool_iff in E. split; [exact E | exact Up].
  - assert (Hlt : (n # d < pow2 (a - b))%Q).
    { apply Qnot_le_lt. intros H. apply Qle_bool_iff in H. congruence. }
    replace (a - b - 1 + 1) with (a - b) by ring.
    split; [apply Qlt_le_weak; exact Lo | exact Hlt].
Qed.

Lemma ilog2_mono (x y : Q) : (0 < x)%Q -> (x <= y)%Q -> ilog2 x <= ilog2 y.
Proof.
  intros Hx Hxy.
  destruct (ilog2_spec x Hx) as [X1 _].
  destruct (ilog2_spec y) as [_ Y2]; [lra |].
  assert (ilog2 x < ilog2 y + 1) by (apply pow2_lt_inv; lra).
  lia.
Qed.

Lemma nearest_even_whole (z : Z) : nearest_even (inject_Z z) = z.
Proof.
  unfold nearest_even. rewrite Qfloor_Z.
  replace (inject_Z z - inject_Z z ?= 1 # 2)%Q with Lt; [reflexivity |].
  symmetry. apply Qlt_alt.
  setoid_replace (inject_Z z - inject_Z z)%Q with 0%Q by ring. reflexivity.
Qed.

Lemma nearest_even_near (q : Q) :
  Qfloor q <= nearest_even q <= Qfloor q + 1.
Proof.
  unfold nearest_even.
  destruct (q - inject_Z (Qfloor q) ?= 1 # 2)%Q; [destruct (Z.even (Qfloor q)) | |]; lia.
Qed.

Lemma nearest_even_mono (x y : Q) : (x <= y)%Q -> nearest_even x <= nearest_even y.
Proof.
  intros Hxy.
  pose proof (Qfloor_resp_le _ _ Hxy) as Hf.
  pose proof (nearest_even_near x) as Nx. pose proof (nearest_even_near y) as Ny.
  destruct (Z.eq_dec (Qfloor x) (Qfloor y)) as [E | NE]; [| lia].
  unfold nearest_even. rewrite <- E.
  destruct (Qcompare_spec (x - inject_Z (Qfloor x)) (1 # 2)) as [Cx | Cx | Cx];
    destruct (Qcompare_spec (y - inject_Z (Qfloor x)) (1 # 2)) as [Cy | Cy | Cy];
    try (destruct (Z.even (Qfloor x))); try lia; exfalso; lra.
Qed.

Lemma nearest_even_comp (x y : Q) : (x == y)%Q -> nearest_even x = nearest_even y.
Proof.
  intros E. apply Z.le_antisymm; apply nearest_even_mono; rewrite E; apply Qle_refl.
Qed.

Lemma nearest_even_between (q : Q) (a b : Z) :
  (inject_Z a <= q)%Q -> (q <= inject_Z b)%Q -> a <= nearest_even q <= b.
Proof.
  intros Ha Hb. split.
  - rewrite <- (nearest_even_whole a). apply nearest_even_mono. exact Ha.
  - rewrite <- (nearest_even_whole b). apply nearest_even_mono. exact Hb.
Qed.

(** Scaled by its exponent, a positive number has 53 bits before the
    point. *)
Lemma scaled_range (q : Q) :
  (0 < q)%Q ->
  (inject_Z (2 ^ 52) <= q / pow2 (ilog2 q - 52))%Q
  /\ (q / pow2 (ilog2 q - 52) < inject_Z (2 ^ 53))%Q.
Proof.
  intros Hq. destruct (ilog2_spec q Hq) as [S1 S2].
  pose proof (pow2_pos (ilog2 q - 52)) as P.
  rewrite <- (pow2_whole 52), <- (pow2_whole 53) by lia.
  split.
  - apply Qle_shift_div_l; [exact P |]. rewrite <- pow2_add.
    replace (52 + (ilog2 q - 52)) with (ilog2 q) by ring. exact S1.
  - apply Qlt_shift_div_r; [exact P |]. rewrite <- pow2_add.
    replace (53 + (ilog2 q - 52)) with (ilog2 q + 1) by ring. exact S2.
Qed.

Lemma round_positive_range (q : Q) :
  (0 < q)%Q ->
  (pow2 (ilog2 q) <= round_positive q)%Q /\ (round_positive q <= pow2 (ilog2 q + 1))%Q.
Proof.
  intros Hq. destruct (scaled_range q Hq) as [S1 S2].
  pose proof (nearest_even_between _ (2 ^ 52) (2 ^ 53) S1 (Qlt_le_weak _ _ S2)) as [N1 N2].
  pose proof (pow2_pos (ilog2 q - 52)) as P.
  unfold round_positive. cbv zeta. split.
  - replace (ilog2 q) with (52 + (ilog2 q - 52)) at 1 by ring.
    rewrite pow2_add, (pow2_whole 52) by lia.
    apply Qmult_le_compat_r; [rewrite <- Zle_Qle; exact N1 | lra].
  - replace (ilog2 q + 1) with (53 + (ilog2 q - 52)) by ring.
    rewrite pow2_add, (pow2_whole 53) by lia.
    apply Qmult_le_compat_r; [rewrite <- Zle_Qle; exact N2 | lra].
Qed.

Lemma round_positive_pos (q : Q) : (0 < q)%Q -> (0 < round_positive q)%Q.
Proof.
  intros Hq. destruct (round_positive_range q Hq) as [R _].
  pose proof (pow2_pos (ilog2 q)). lra.
Qed.

Lemma round_positive_mono (x y : Q) :
  (0 < x)%Q -> (x <= y)%Q -> (round_positive x <= round_positive y)%Q.
Proof.
  intros Hx Hxy.
  assert (Hy : (0 < y)%Q) by lra.
  pose proof (ilog2_mono x y Hx Hxy) as L.
  destruct (Z.eq_dec (ilog2 x) (ilog2 y)) as [E | NE].
  - unfold round_positive. cbv zeta. rewrite E.
    pose proof (pow2_pos (ilog2 y - 52)) as P.
    apply Qmult_le_compat_r; [| lra].
    rewrite <- Zle_Qle. apply nearest_even_mono.
    apply Qmult_le_compat_r; [exact Hxy |].
    apply Qlt_le_weak, Qinv_lt_0_compat, P.
  - destruct (round_positive_range x Hx) as [_ X].
    destruct (round_positive_range y Hy) as [Y _].
    assert (pow2 (ilog2 x + 1) <= pow2 (ilog2 y))%Q by (apply pow2_le; lia).
    lra.
Qed.

Lemma round_positive_whole (z : Z) :
  0 < z <= 2 ^ 53 -> (round_positive (inject_Z z) == inject_Z z)%Q.
Proof.
  intros [Hz1 Hz2].
  assert (Hq : (0 < inject_Z z)%Q) by (rewrite <- (Zlt_Qlt 0); exact Hz1).
  destruct (ilog2_spec _ Hq) as [S1 S2].
  assert (Hl : ilog2 (inject_Z z) < 54).
  { apply pow2_lt_inv. apply Qle_lt_trans with (inject_Z z); [exact S1 |].
    rewrite (pow2_whole 54) by lia. rewrite <- Zlt_Qlt. lia. }
  unfold round_positive. cbv zeta.
  set (l := ilog2 (inject_Z z)) in *.
  destruct (Z.eq_dec l 53) as [E | NE].
  - assert (z = 2 ^ 53).
    { rewrite E in S1. rewrite (pow2_whole 53) in S1 by lia.
      rewrite <- Zle_Qle in S1. lia. }
    subst z. rewrite E. vm_compute. reflexivity.
  - assert (Hneg : 0 <= - (l - 52)) by lia.
    assert (Ew : (inject_Z z / pow2 (l - 52) == inject_Z (z * 2 ^ (- (l - 52))))%Q).
    { rewrite Qdiv_pow2, (pow2_whole _ Hneg), inject_Z_mult. reflexivity. }
    rewrite (nearest_even_comp _ _ Ew), nearest_even_whole, inject_Z_mult,
      <- (pow2_whole _ Hneg).
    rewrite <- Qmult_assoc, (Qmult_comm (pow2 (- (l - 52)))), pow2_opp. ring.
Qed.

(** Rounding keeps the order. *)
Lemma round64_mono (x y : Q) : (x <= y)%Q -> (round64 x <= round64 y)%Q.
Proof.
  intros Hxy. unfold round64.
  destruct (Qcompare_spec x 0) as [Cx | Cx | Cx];
    destruct (Qcompare_spec y 0) as [Cy | Cy | Cy]; try (exfalso; lra).
  - lra.
  - pose proof (round_positive_pos y Cy). lra.
  - pose proof (round_positive_pos (- x)). lra.
  - pose proof (round_positive_mono (- y) (- x)). lra.
  - pose proof (round_positive_pos (- x)). pose proof (round_positive_pos y). lra.
  - apply round_positive_mono; assumption.
Qed.

(** A double holds every whole number up to 2 ^ 53. *)
Lemma round64_whole (z : Z) :
  - 2 ^ 53 <= z <= 2 ^ 53 -> (round64 (inject_Z z) == inject_Z z)%Q.
Proof.
  intros Hz. unfold round64.
  destruct (Qcompare_spec (inject_Z z) 0) as [C | C | C].
  - symmetry. exact C.
  - change 0%Q with (inject_Z 0) in C. rewrite <- Zlt_Qlt in C.
    rewrite <- inject_Z_opp, round_positive_whole by lia.
    rewrite inject_Z_opp. ring.
  - change 0%Q with (inject_Z 0) in C. rewrite <- Zlt_Qlt in C.
    apply round_positive_whole. lia.
Qed.

(** [round64] and the doubles of the machine, on some quotients, products
    and sums. *)
Lemma round64_on_the_machine :
  holds (1 / 3)%float (round64 (1 / 3)) = true
  /\ holds (2 / 3)%float (round64 (2 / 3)) = true
  /\ holds (-1 / 3)%float (round64 (-1 / 3)) = true
  /\ holds (365 / 12)%float (round64 (365 / 12)) = true
  /\ holds (7 * (365 / 12))%float (round64 (7 * round64 (365 / 12))) = true
  /\ holds (1 / 10 + 2 / 10)%float (round64 (round64 (1 / 10) + round64 (2 / 10))) = true
  /\ holds (9007199254740992 + 1)%float (round64 (9007199254740992 + 1)) = true
  /\ holds (9007199254740992 + 3)%float (round64 (9007199254740992 + 3)) = true
  /\ holds (86724000000 / (11 * (365 / 12) * 86400000) + 1)%float
       (round64 (round64 (86724000000
                          / round64 (round64 (11 * round64 (365 / 12)) * 86400000)) + 1))
     = true.
Proof. repeat split; vm_compute; reflexivity. Qed.

End Rounding.

(** ** The step count on rounded doubles *)

Section RoundedSteps.

Import TimeSliderController.

Variable rnd : Q -> Q.

Hypothesis rnd_mono : forall x y : Q, (x <= y)%Q -> (rnd x <= rnd y)%Q.

Hypothesis rnd_whole :
  forall z : Z, - 2 ^ 53 <= z <= 2 ^ 53 -> (rnd (inject_Z z) == inject_Z z)%Q.

Lemma rnd_comp (x y : Q) : (x == y)%Q -> (rnd x == rnd y)%Q.
Proof.
  intros E. apply Qle_antisym; apply rnd_mono; rewrite E; apply Qle_refl.
Qed.

Lemma rnd_between (x : Q) (a b : Z) :
  - 2 ^ 53 <= a -> b <= 2 ^ 53 ->
  (inject_Z a <= x)%Q -> (x <= inject_Z b)%Q ->
  (inject_Z a <= rnd x)%Q /\ (rnd x <= inject_Z b)%Q.
Proof.
  intros Ha Hb La Lb.
  assert (a <= b) by (rewrite Zle_Qle; lra).
  split.
  - rewrite <- (rnd_whole a) by lia. apply rnd_mono. exact La.
  - rewrite <- (rnd_whole b) by lia. apply rnd_mono. exact Lb.
Qed.

Lemma rounded_fdiv_Some (a b q : Q) :
  Rounded.fdiv rnd a b = Some q <-> ~ (b == 0)%Q /\ q = rnd (a / b)%Q.
Proof.
  unfold Rounded.fdiv. destruct (Qeq_bool b 0) eqn:E.
  - apply Qeq_bool_iff in E. split; [discriminate | intros [H _]; contradiction].
  - apply Qeq_bool_neq in E. split; [intros [= <-]; auto | intros [_ ->]; reflexivity].
Qed.

(** Line 294 on rounded doubles: the count is the floor of range over
    interval plus one, or plus two. *)
Lemma carried_count (range : Z) (intervalMS q : Q) (n : Z) :
  0 <= range <= 2 ^ 53 -> (0 < intervalMS)%Q ->
  Rounded.fdiv rnd (rnd (inject_Z range)) intervalMS = Some q ->
  Cpp.to_int (rnd (q + 1))%Q = Some n ->
  let x := (inject_Z range / intervalMS)%Q in
  (n = Qfloor x + 1 \/ n = Qfloor x + 2)
  /\ (n = Qfloor x + 2 <-> (inject_Z (Qfloor x + 2) <= rnd (rnd x + 1))%Q)
  /\ ((x == inject_Z (Qfloor x))%Q -> n = Qfloor x + 1).
Proof.
  intros Hr Hi Hq Hn x.
  apply rounded_fdiv_Some in Hq as [_ ->].
  apply to_integral_Some in Hn as [-> Hfit].
  assert (Ex : (rnd (inject_Z range) / intervalMS == x)%Q).
  { unfold x. rewrite (rnd_whole range) by lia. reflexivity. }
  assert (Ey : (rnd (rnd (rnd (inject_Z range) / intervalMS) + 1) == rnd (rnd x + 1))%Q).
  { apply rnd_comp. rewrite (rnd_comp _ _ Ex). reflexivity. }
  rewrite (truncate_comp _ _ Ey) in *. clear Ex Ey.
  assert (Hx : (0 <= x)%Q).
  { apply Qdiv_nonneg; [apply inject_Z_nonneg; lia | exact Hi]. }
  pose proof (Qfloor_le x) as Fl. pose proof (Qlt_floor x) as Fu.
  assert (Hk : 0 <= Qfloor x).
  { rewrite <- (Qfloor_Z 0). apply Qfloor_resp_le. exact Hx. }
  set (k := Qfloor x) in *.
  rewrite inject_Z_plus in Fu. change (inject_Z 1) with 1%Q in Fu.
  destruct (Z_le_gt_dec (k + 2) (2 ^ 53)) as [Small | Large].
  - destruct (rnd_between x k (k + 1)) as [X1 X2]; try lia; try lra.
    { rewrite inject_Z_plus. change (inject_Z 1) with 1%Q. lra. }
    rewrite inject_Z_plus in X2. change (inject_Z 1) with 1%Q in X2.
    destruct (rnd_between (rnd x + 1) (k + 1) (k + 2)) as [Y1 Y2]; try lia.
    { rewrite inject_Z_plus. change (inject_Z 1) with 1%Q. lra. }
    { rewrite inject_Z_plus. change (inject_Z 2) with 2%Q. lra. }
    set (y := rnd (rnd x + 1)%Q) in *.
    assert (Hy : (0 <= y)%Q).
    { rewrite inject_Z_plus in Y1. change (inject_Z 1) with 1%Q in Y1.
      assert (0 <= inject_Z k)%Q by (apply inject_Z_nonneg; exact Hk). lra. }
    rewrite truncate_nonneg in * by exact Hy.
    destruct (Qlt_le_dec y (inject_Z (k + 2))) as [Below | Carry].
    + assert (E : Qfloor y = k + 1).
      { apply Qfloor_unique; [exact Y1 |].
        replace (k + 1 + 1) with (k + 2) by ring. exact Below. }
      split; [left; exact E |]. split.
      * split; [intros; lia | intros; lra].
      * intros _. exact E.
    + assert (E : Qfloor y = k + 2).
      { apply Qfloor_unique; [exact Carry |].
        rewrite inject_Z_plus. change (inject_Z 1) with 1%Q. lra. }
      split; [right; exact E |]. split.
      * split; [intros _; exact Carry | intros _; exact E].
      * intros Whole. exfalso.
        assert (E1 : (rnd x == inject_Z k)%Q).
        { rewrite (rnd_comp _ _ Whole). apply rnd_whole. lia. }
        assert (E2 : (rnd x + 1 == inject_Z (k + 1))%Q).
        { rewrite E1, inject_Z_plus. reflexivity. }
        assert (E3 : (y == inject_Z (k + 1))%Q).
        { unfold y. rewrite (rnd_comp _ _ E2). apply rnd_whole. lia. }
        rewrite E3 in Carry. rewrite <- Zle_Qle in Carry. lia.
  - exfalso.
    assert (B : (inject_Z (2 ^ 53 - 1) <= x)%Q).
    { apply Qle_trans with (inject_Z k); [rewrite <- Zle_Qle; lia | exact Fl]. }
    assert (B1 : (inject_Z (2 ^ 53 - 1) <= rnd x)%Q).
    { rewrite <- (rnd_whole (2 ^ 53 - 1)) by lia. apply rnd_mono. exact B. }
    assert (B2 : (inject_Z (2 ^ 53) <= rnd (rnd x + 1))%Q).
    { rewrite <- (rnd_whole (2 ^ 53)) by lia. apply rnd_mono.
      replace (2 ^ 53) with (2 ^ 53 - 1 + 1) by ring.
      rewrite inject_Z_plus. change (inject_Z 1) with 1%Q. lra. }
    assert (B3 : 2 ^ 53 <= Cpp.truncate (rnd (rnd x + 1)%Q)).
    { rewrite <- (truncate_inject_Z (2 ^ 53)). apply truncate_mono_nonneg; [| exact B2].
      apply inject_Z_nonneg. lia. }
    unfold Cpp.int_max in Hfit. lia.
Qed.

Lemma rounded_calculateStepPositions_frame (c c' : t) :
  Rounded.calculateStepPositions rnd c = Some c' ->
  m_fullTimeExtent c' = m_fullTimeExtent c
  /\ m_intervalMS c' = m_intervalMS c /\ m_numberOfSteps c' = m_numberOfSteps c.
Proof.
  unfold Rounded.calculateStepPositions.
  destruct (TimeExtent.isEmpty (m_fullTimeExtent c)).
  - intros [= <-]. repeat split.
  - intros H. apply bind_Some in H as (s & _ & H). apply bind_Some in H as (e & _ & H).
    injection H as <-. repeat split.
Qed.

Lemma rounded_stepTimesFrom_length (start : QDateTime.t) (intervalMS : Q) (count : nat) :
  forall (i : Z) (l : list QDateTime.t),
    Rounded.stepTimesFrom rnd start intervalMS i count = Some l -> length l = count.
Proof.
  induction count as [|count IH]; intros i l H; simpl in H.
  - now injection H as <-.
  - apply bind_Some in H as (ms & _ & H). apply bind_Some in H as (rest & Hrest & H).
    injection H as <-. simpl. f_equal. eauto.
Qed.

(** What a recomputation on rounded doubles that runs leaves in the
    members. *)
Lemma rounded_initializeTimeProperties_runs (rows : LayerListModel) (c c' : t) :
  Rounded.initializeTimeProperties rnd (Some rows) c = Some c' ->
  timeAwareLayers rows <> [] ->
  (exists q,
      Rounded.fdiv rnd (rnd (inject_Z (rangeMS (m_fullTimeExtent c')))) (m_intervalMS c')
      = Some q
      /\ Cpp.to_int (rnd (q + 1))%Q = Some (m_numberOfSteps c'))
  /\ Z.of_nat (length (m_stepTimes c')) = Z.max 0 (m_numberOfSteps c').
Proof.
  unfold Rounded.initializeTimeProperties. intros H Hne.
  destruct (timeAwareLayers rows) as [|a l] eqn:Hl; [contradiction|].
  destruct (fold_left (Rounded.visit rnd) (a :: l) (c, EmptyTimeValue)) as [c1 ts].
  apply bind_Some in H as (q & Hq & H). apply bind_Some in H as (n & Hn & H).
  apply bind_Some in H as (c3 & H3 & H). apply bind_Some in H as (c4 & H4 & H).
  injection H as <-.
  apply rounded_calculateStepPositions_frame in H3 as (F3 & I3 & N3).
  unfold Rounded.setStepTimes in H4. apply bind_Some in H4 as (times & Ht & H4).
  injection H4 as <-.
  apply rounded_stepTimesFrom_length in Ht.
  match type of F3 with
  | _ = m_fullTimeExtent (setNumberOfSteps n ?c2) =>
      destruct (setNumberOfSteps_spec n c2) as (N & _ & F & I)
  end.
  rewrite N in N3. rewrite F in F3. rewrite I in I3.
  cbn [m_fullTimeExtent m_intervalMS m_numberOfSteps m_stepTimes emit with_intervalMS
       with_stepTimes] in *.
  unfold rangeMS. rewrite F3, I3, N3 in *. split.
  - exists q. split; [exact Hq | exact Hn].
  - rewrite Ht. lia.
Qed.

End RoundedSteps.

Section StepsOnBinary64.

Import TimeSliderController.

(** C2, as the code has it.  On binary64 doubles, a recomputation over at
    least one participating layer that ends with a full extent from [s] to
    [e], with [s] not after [e], a range of at most 2 ^ 53 ms and a
    positive interval ends with [numberOfSteps] equal to the floor of range
    over interval plus one, or plus two: plus two exactly when the rounded
    sum of the rounded quotient and one reaches that whole number, and
    never when the interval divides the range.  There are [numberOfSteps]
    step times. *)
Theorem numberOfSteps_is_floor_plus_one_or_two
  (rows : LayerListModel) (c c' : t) (s e : QDateTime.t) :
  Rounded.initializeTimeProperties Binary64.round64 (Some rows) c = Some c' ->
  timeAwareLayers rows <> [] ->
  m_fullTimeExtent c' = Extent s e ->
  QDateTime.toMSecsSinceEpoch s <= QDateTime.toMSecsSinceEpoch e ->
  rangeMS (m_fullTimeExtent c') <= 2 ^ 53 ->
  (0 < m_intervalMS c')%Q ->
  let x := (inject_Z (rangeMS (m_fullTimeExtent c')) / m_intervalMS c')%Q in
  (m_numberOfSteps c' = Qfloor x + 1 \/ m_numberOfSteps c' = Qfloor x + 2)
  /\ (m_numberOfSteps c' = Qfloor x + 2
      <-> (inject_Z (Qfloor x + 2) <= Binary64.round64 (Binary64.round64 x + 1))%Q)
  /\ ((x == inject_Z (Qfloor x))%Q -> m_numberOfSteps c' = Qfloor x + 1)
  /\ Z.of_nat (length (m_stepTimes c')) = m_numberOfSteps c'.
Proof.
  intros Hrun Hne Hfull Hse Hbig Hi x.
  destruct (rounded_initializeTimeProperties_runs Binary64.round64 rows c c' Hrun Hne)
    as ((q & Hq & Hn) & Hlen).
  assert (Hr : 0 <= rangeMS (m_fullTimeExtent c')).
  { rewrite Hfull. unfold rangeMS. simpl. lia. }
  destruct (carried_count Binary64.round64 round64_mono round64_whole
              _ _ _ _ (conj Hr Hbig) Hi Hq Hn) as (Hcount & Hcarry & Hwhole).
  fold x in Hcount, Hcarry, Hwhole.
  split; [exact Hcount |]. split; [exact Hcarry |]. split; [exact Hwhole |].
  assert (0 <= Qfloor x).
  { rewrite <- (Qfloor_Z 0). apply Qfloor_resp_le. unfold x.
    apply Qdiv_nonneg; [apply inject_Z_nonneg; exact Hr | exact Hi]. }
  rewrite Hlen. lia.
Qed.

(** The exact recomputation is the rounded one when nothing is rounded. *)
Lemma initializeTimeProperties_unrounded (layers : option LayerListModel) (c : t) :
  Rounded.initializeTimeProperties (fun q => q) layers c = initializeTimeProperties layers c.
Proof. reflexivity. Qed.

Lemma numberOfSteps_is_floor_plus_one_or_two_witness :
  (exists c',
      Rounded.initializeTimeProperties Binary64.round64 (Some Scenario.everySecond)
        Scenario.idle = Some c'
      /\ Qfloor (inject_Z (rangeMS (m_fullTimeExtent c')) / m_intervalMS c') = 3
      /\ m_numberOfSteps c' = 4
      /\ Z.of_nat (length (m_stepTimes c')) = m_numberOfSteps c')
  /\ (exists c',
         Rounded.initializeTimeProperties Binary64.round64 (Some Scenario.elevenMonths)
           Scenario.idle = Some c'
         /\ Qfloor (inject_Z (rangeMS (m_fullTimeExtent c')) / m_intervalMS c') = 0
         /\ m_numberOfSteps c' = 2
         /\ Z.of_nat (length (m_stepTimes c')) = m_numberOfSteps c').
Proof.
  split.
  - eexists. split; [vm_compute; reflexivity|]. split; [vm_compute; reflexivity|].
    split; [reflexivity|].
    apply (numberOfSteps_is_floor_plus_one_or_two
             Scenario.everySecond Scenario.idle _ (QDateTime.MSecs 0) (QDateTime.MSecs 3000)).
    + vm_compute. reflexivity.
    + vm_compute. discriminate.
    + reflexivity.
    + simpl. lia.
    + vm_compute. discriminate.
    + reflexivity.
  - eexists. split; [vm_compute; reflexivity|]. split; [vm_compute; reflexivity|].
    split; [reflexivity|].
    apply (numberOfSteps_is_floor_plus_one_or_two
             Scenario.elevenMonths Scenario.idle _
             (QDateTime.MSecs 0) (QDateTime.MSecs 28908000000)).
    + vm_compute. reflexivity.
    + vm_compute. discriminate.
    + reflexivity.
    + simpl. lia.
    + vm_compute. discriminate.
    + reflexivity.
Defined.

(** C2 fails as stated.  Eleven months over a range of eleven months: the
    interval is the double next above 28908000000, the quotient the double
    next below 1, and the sum of that and 1 is rounded to 2, so there are
    two steps where the floor of range over interval, plus one, is one;
    the doubles of the machine give the same.  An extent that ends before
    it starts gives a negative [numberOfSteps] and no step times.  More
    steps than an [int] holds leave the behaviour undefined.  Beyond
    2 ^ 53 ms the range itself is rounded: three intervals of 2 ^ 53 - 2 ms
    give three steps, not four, on the machine too. *)
Lemma numberOfSteps_not_floor_plus_one :
  (exists c',
      Rounded.initializeTimeProperties Binary64.round64 (Some Scenario.elevenMonths)
        Scenario.idle = Some c'
      /\ m_fullTimeExtent c' = Scenario.extent 0 28908000000
      /\ (m_intervalMS c' == 28908000000 + (1 # 262144))%Q
      /\ m_numberOfSteps c' = 2
      /\ Qfloor (inject_Z (rangeMS (m_fullTimeExtent c')) / m_intervalMS c') + 1 = 1
      /\ m_endStep c' = 0
      /\ Binary64.holds (11 * (365 / 12) * 86400000)%float (m_intervalMS c') = true
      /\ Binary64.holds (28908000000 / (11 * (365 / 12) * 86400000) + 1)%float 2 = true)
  /\ (exists c',
         Rounded.initializeTimeProperties Binary64.round64 (Some Scenario.backwards)
           Scenario.idle = Some c'
         /\ m_fullTimeExtent c' = Scenario.extent 3000 0
         /\ (m_intervalMS c' == 1000)%Q
         /\ m_numberOfSteps c' = -2
         /\ m_stepTimes c' = [])
  /\ Rounded.initializeTimeProperties Binary64.round64 (Some Scenario.everyMsOfACentury)
       Scenario.idle = None
  /\ (exists c',
         Rounded.initializeTimeProperties Binary64.round64 (Some Scenario.beyondDoubles)
           Scenario.idle = Some c'
         /\ (m_intervalMS c' == 9007199254740990)%Q
         /\ rangeMS (m_fullTimeExtent c') = 3 * 9007199254740990
         /\ m_numberOfSteps c' = 3
         /\ Qfloor (inject_Z (rangeMS (m_fullTimeExtent c')) / m_intervalMS c') + 1 = 4
         /\ Binary64.holds
              (Binary64.ofInteger 27021597764222970 / 9007199254740990 + 1)%float
              (4 - (1 # 2251799813685248))%Q = true).
Proof.
  split; [| split; [| split]].
  - eexists. split; [vm_compute; reflexivity|]. repeat split; vm_compute; reflexivity.
  - eexists. split; [vm_compute; reflexivity|]. repeat split; vm_compute; reflexivity.
  - vm_compute. reflexivity.
  - eexists. split; [vm_compute; reflexivity|]. repeat split; vm_compute; reflexivity.
Qed.

End StepsOnBinary64.

(** ** The step times *)

Section StepTimes.

Import TimeSliderController.








End StepTimes.

(** ** From a step index to a timestamp and back *)

Section RoundTrip.

Import TimeSliderController.



Lemma fullTimeExtent_setTimeExtent (e : TimeExtent) (c : t) :
  m_fullTimeExtent (setTimeExtent e c) = m_fullTimeExtent c.
Proof. unfold setTimeExtent. destruct (m_geoView c); reflexivity. Qed.


End RoundTrip.

Section RoundTripOnExamples.

Import TimeSliderController.



End RoundTripOnExamples.

(** ** Step indices of a view extent that starts before the full extent *)

Section Unclamped.

Import TimeSliderController.




Lemma stepOf_Some (c : t) (ms step : Z) :
  stepOf c ms = Some step ->
  step = Cpp.truncate (inject_Z (ms - QDateTime.toMSecsSinceEpoch (fullExtentStart c))
                       / m_intervalMS c).
Proof.
  unfold stepOf. intros H. apply bind_Some in H as (q & Hq & H).
  apply fdiv_Some in Hq as [_ ->]. now apply to_integral_Some in H as [-> _].
Qed.





End Unclamped.

(** ** The step setters without a full extent *)

Section NoFullExtent.

Import TimeSliderController.

(** C9.  While the full extent is empty, each of the three step setters
    returns the controller as it was: the members, the view, the signals
    emitted and the calls of the view's setter are all unchanged. *)
Theorem setters_without_full_extent (c : t) (i j : Z) :
  TimeExtent.isEmpty (m_fullTimeExtent c) = true ->
  setStartInterval i c = Some c
  /\ setEndInterval i c = Some c
  /\ setStartAndEndIntervals i j c = Some c.
Proof.
  intros H. unfold setStartInterval, setEndInterval, setStartAndEndIntervals.
  rewrite H. auto.
Qed.

Lemma setters_without_full_extent_witness :
  setStartInterval 5 Scenario.onMap = Some Scenario.onMap
  /\ setEndInterval 5 Scenario.onMap = Some Scenario.onMap
  /\ setStartAndEndIntervals 5 7 Scenario.onMap = Some Scenario.onMap.
Proof.
  apply (setters_without_full_extent Scenario.onMap 5 7). reflexivity.
Defined.

End NoFullExtent.

(** ** The interval of the steps *)

Section Interval.

Import TimeSliderController.

Lemma TimeUnit_eqb_eq (a b : TimeUnit) : TimeUnit_eqb a b = true -> a = b.
Proof. destruct a, b; simpl; intros H; solve [reflexivity | discriminate H]. Qed.

Lemma coarser_fold_empty (l : list TimeValue) :
  (forall v, In v l -> TimeValue.isEmpty v = true) ->
  fold_left coarser l EmptyTimeValue = EmptyTimeValue.
Proof.
  induction l as [|a l IH]; intros H; simpl; [reflexivity|].
  assert (Ea : a = EmptyTimeValue).
  { specialize (H a (or_introl eq_refl)). destruct a; [reflexivity | discriminate]. }
  subst a. apply IH. intros v Hv. apply H. now right.
Qed.

End Interval.

(** ** The interval on rounded doubles *)

Section RoundedInterval.

Import TimeSliderController.

Variable rnd : Q -> Q.

Hypothesis rnd_mono : forall x y : Q, (x <= y)%Q -> (rnd x <= rnd y)%Q.

Hypothesis rnd_whole :
  forall z : Z, - 2 ^ 53 <= z <= 2 ^ 53 -> (rnd (inject_Z z) == inject_Z z)%Q.

Lemma rnd_nonneg (x : Q) : (0 <= x)%Q -> (0 <= rnd x)%Q.
Proof.
  intros H. rewrite <- (rnd_whole 0) by lia. apply rnd_mono. exact H.
Qed.

Lemma rnd_scale_mono (x y k : Q) :
  (0 <= k)%Q -> (x <= y)%Q -> (rnd (x * k) <= rnd (y * k))%Q.
Proof.
  intros Hk H. apply rnd_mono. apply Qmult_le_compat_r; assumption.
Qed.

(** A longer duration in the same unit is not shorter in milliseconds. *)
Lemma rounded_toMilliseconds_mono (a b : TimeValue) :
  TimeValue.unit a = TimeValue.unit b ->
  (TimeValue.duration a <= TimeValue.duration b)%Q ->
  (Rounded.toMilliseconds rnd a <= Rounded.toMilliseconds rnd b)%Q.
Proof.
  intros E H. unfold Rounded.toMilliseconds. rewrite E.
  assert (M : (0 <= rnd (365 / 12))%Q) by (apply rnd_nonneg; vm_compute; discriminate).
  destruct (TimeValue.unit b); cbv zeta;
    repeat (apply rnd_scale_mono; [first [exact M | lra] |]); exact H.
Qed.

Lemma rounded_toMilliseconds_nonneg (v : TimeValue) :
  (0 <= TimeValue.duration v)%Q -> (0 <= Rounded.toMilliseconds rnd v)%Q.
Proof.
  intros H. unfold Rounded.toMilliseconds.
  assert (M : (0 <= rnd (365 / 12))%Q) by (apply rnd_nonneg; vm_compute; discriminate).
  destruct (TimeValue.unit v); cbv zeta;
    repeat (apply rnd_nonneg; apply Qmult_le_0_compat; [| first [exact M | lra]]);
    exact H.
Qed.

Lemma rounded_gt_true (a b : TimeValue) :
  Rounded.TimeValue_gt rnd a b = true ->
  (Rounded.toMilliseconds rnd b <= Rounded.toMilliseconds rnd a)%Q.
Proof.
  unfold Rounded.TimeValue_gt. destruct (TimeUnit_eqb _ _) eqn:E; rewrite Qltb_lt; intros H.
  - apply TimeUnit_eqb_eq in E. apply rounded_toMilliseconds_mono; [now symmetry | lra].
  - lra.
Qed.

Lemma rounded_gt_false (a b : TimeValue) :
  Rounded.TimeValue_gt rnd a b = false ->
  (Rounded.toMilliseconds rnd a <= Rounded.toMilliseconds rnd b)%Q.
Proof.
  unfold Rounded.TimeValue_gt. destruct (TimeUnit_eqb _ _) eqn:E; rewrite Qltb_ge; intros H.
  - apply TimeUnit_eqb_eq in E. apply rounded_toMilliseconds_mono; assumption.
  - exact H.
Qed.

(** No interval is coarser than a reported one whose duration is not
    negative. *)
Lemma rounded_gt_empty (acc : TimeValue) :
  (0 <= TimeValue.duration acc)%Q ->
  Rounded.TimeValue_gt rnd EmptyTimeValue acc = false.
Proof.
  intros H. unfold Rounded.TimeValue_gt.
  destruct (TimeUnit_eqb _ _); apply Qltb_ge.
  - exact H.
  - apply (rounded_toMilliseconds_nonneg acc H).
Qed.

(** One round: the interval kept is one of the two, and not shorter than
    either one that is reported. *)
Lemma rounded_coarser_spec (acc a : TimeValue) :
  (TimeValue.isEmpty acc = false -> (0 <= TimeValue.duration acc)%Q) ->
  (TimeValue.isEmpty a = false -> (0 <= TimeValue.duration a)%Q) ->
  (Rounded.coarser rnd acc a = acc \/ Rounded.coarser rnd acc a = a)
  /\ (TimeValue.isEmpty (Rounded.coarser rnd acc a) = false ->
      (0 <= TimeValue.duration (Rounded.coarser rnd acc a))%Q)
  /\ (TimeValue.isEmpty acc = false ->
      TimeValue.isEmpty (Rounded.coarser rnd acc a) = false
      /\ (Rounded.toMilliseconds rnd acc
          <= Rounded.toMilliseconds rnd (Rounded.coarser rnd acc a))%Q)
  /\ (TimeValue.isEmpty a = false ->
      TimeValue.isEmpty (Rounded.coarser rnd acc a) = false
      /\ (Rounded.toMilliseconds rnd a
          <= Rounded.toMilliseconds rnd (Rounded.coarser rnd acc a))%Q).
Proof.
  intros Hacc Ha. unfold Rounded.coarser.
  destruct (TimeValue.isEmpty acc) eqn:Eacc.
  - repeat split; auto; try discriminate; apply Qle_refl.
  - specialize (Hacc eq_refl).
    destruct (Rounded.TimeValue_gt rnd a acc) eqn:Egt.
    + assert (Ea : TimeValue.isEmpty a = false).
      { destruct a; [|reflexivity]. rewrite (rounded_gt_empty acc Hacc) in Egt.
        discriminate Egt. }
      apply rounded_gt_true in Egt.
      repeat split; auto; apply Qle_refl.
    + apply rounded_gt_false in Egt.
      repeat split; auto; apply Qle_refl.
Qed.

Lemma rounded_coarser_fold (l : list TimeValue) :
  forall acc : TimeValue,
    (forall v, In v l -> TimeValue.isEmpty v = false -> (0 <= TimeValue.duration v)%Q) ->
    (TimeValue.isEmpty acc = false -> (0 <= TimeValue.duration acc)%Q) ->
    (fold_left (Rounded.coarser rnd) l acc = acc
     \/ In (fold_left (Rounded.coarser rnd) l acc) l)
    /\ (TimeValue.isEmpty acc = false ->
        TimeValue.isEmpty (fold_left (Rounded.coarser rnd) l acc) = false
        /\ (Rounded.toMilliseconds rnd acc
            <= Rounded.toMilliseconds rnd (fold_left (Rounded.coarser rnd) l acc))%Q)
    /\ (forall v, In v l -> TimeValue.isEmpty v = false ->
        TimeValue.isEmpty (fold_left (Rounded.coarser rnd) l acc) = false
        /\ (Rounded.toMilliseconds rnd v
            <= Rounded.toMilliseconds rnd (fold_left (Rounded.coarser rnd) l acc))%Q).
Proof.
  induction l as [|a l IH]; intros acc Hl Hacc; simpl.
  - split; [now left|].
    split; [intros H; split; [assumption | apply Qle_refl] | contradiction].
  - assert (Ha : TimeValue.isEmpty a = false -> (0 <= TimeValue.duration a)%Q).
    { intros E. apply Hl; [now left | assumption]. }
    destruct (rounded_coarser_spec acc a Hacc Ha) as (Hsel & Hpos & Hkeep & Hnew).
    destruct (IH (Rounded.coarser rnd acc a) (fun v Hv => Hl v (or_intror Hv)) Hpos)
      as (Hin & Hmono & Hall).
    split; [|split].
    + destruct Hin as [-> | Hin]; [|now right; right].
      destruct Hsel as [-> | ->]; [now left | now right; left].
    + intros E. destruct (Hkeep E) as [E' Hle]. destruct (Hmono E') as [E'' Hle'].
      split; [assumption | lra].
    + intros v [<- | Hv] E.
      * destruct (Hnew E) as [E' Hle]. destruct (Hmono E') as [E'' Hle'].
        split; [assumption | lra].
      * now apply Hall.
Qed.

Lemma rounded_visit_interval (l : list TimeAware.t) (c : t) (v : TimeValue) :
  snd (fold_left (Rounded.visit rnd) l (c, v))
  = fold_left (Rounded.coarser rnd) (map TimeAware.timeInterval l) v.
Proof.
  revert c v. induction l as [|a l IH]; intros c v; simpl; [reflexivity|].
  apply IH.
Qed.

(** The interval a recomputation on rounded doubles stores. *)
Lemma rounded_intervalMS (rows : LayerListModel) (c c' : t) :
  Rounded.initializeTimeProperties rnd (Some rows) c = Some c' ->
  TimeValue.isEmpty (roundedInterval rnd rows) = false ->
  m_intervalMS c' = Rounded.toMilliseconds rnd (roundedInterval rnd rows).
Proof.
  unfold Rounded.initializeTimeProperties, roundedInterval, layerIntervals. intros H Hsel.
  destruct (timeAwareLayers rows) as [|a l] eqn:Hl; [discriminate Hsel|].
  rewrite <- (rounded_visit_interval (a :: l) c EmptyTimeValue) in *.
  destruct (fold_left (Rounded.visit rnd) (a :: l) (c, EmptyTimeValue)) as [c1 ts].
  cbn [snd] in *.
  apply bind_Some in H as (q & Hq & H). apply bind_Some in H as (n & Hn & H).
  apply bind_Some in H as (c3 & H3 & H). apply bind_Some in H as (c4 & H4 & H).
  injection H as <-.
  apply rounded_calculateStepPositions_frame in H3 as (_ & I3 & _).
  unfold Rounded.setStepTimes in H4. apply bind_Some in H4 as (times & _ & H4).
  injection H4 as <-.
  match type of I3 with
  | _ = m_intervalMS (setNumberOfSteps n ?c2) =>
      destruct (setNumberOfSteps_spec n c2) as (_ & _ & _ & I)
  end.
  rewrite I in I3. cbn [m_intervalMS emit with_intervalMS with_stepTimes] in *.
  rewrite I3. unfold Rounded.resolve. now rewrite Hsel.
Qed.

(** The interval of the loop, when the reported intervals are not
    negative. *)
Lemma rounded_interval_is_coarsest (rows : LayerListModel) :
  (forall v, In v (layerIntervals rows) -> TimeValue.isEmpty v = false ->
             (0 <= TimeValue.duration v)%Q) ->
  forall v, In v (layerIntervals rows) -> TimeValue.isEmpty v = false ->
    TimeValue.isEmpty (roundedInterval rnd rows) = false
    /\ In (roundedInterval rnd rows) (layerIntervals rows)
    /\ (Rounded.toMilliseconds rnd v
        <= Rounded.toMilliseconds rnd (roundedInterval rnd rows))%Q
    /\ (forall c c', Rounded.initializeTimeProperties rnd (Some rows) c = Some c' ->
          m_intervalMS c' = Rounded.toMilliseconds rnd (roundedInterval rnd rows)).
Proof.
  intros Hpos v Hv Ev.
  destruct (rounded_coarser_fold (layerIntervals rows) EmptyTimeValue Hpos
              ltac:(discriminate)) as (Hin & _ & Hall).
  destruct (Hall v Hv Ev) as [Esel Hle].
  change (fold_left (Rounded.coarser rnd) (layerIntervals rows) EmptyTimeValue)
    with (roundedInterval rnd rows) in *.
  split; [exact Esel|]. split; [|split; [exact Hle|]].
  - destruct Hin as [E | Hin]; [|exact Hin]. rewrite E in Esel. discriminate Esel.
  - intros c c' Hrun. now apply (rounded_intervalMS rows c c').
Qed.

End RoundedInterval.

(** ** The order of durations *)

Section Durations.

(** On binary64 doubles, [operator >] on time values follows their lengths
    in milliseconds: a greater value is not shorter, and a value that is
    not greater is not longer; no value is greater than itself, nor are two
    values each greater than the other; of one hour and sixty minutes
    neither is greater. *)
Theorem TimeValue_gt_follows_milliseconds (a b : TimeValue) :
  (Rounded.TimeValue_gt Binary64.round64 a b = true ->
   (Rounded.toMilliseconds Binary64.round64 b
    <= Rounded.toMilliseconds Binary64.round64 a)%Q)
  /\ (Rounded.TimeValue_gt Binary64.round64 a b = false ->
      (Rounded.toMilliseconds Binary64.round64 a
       <= Rounded.toMilliseconds Binary64.round64 b)%Q)
  /\ Rounded.TimeValue_gt Binary64.round64 a a = false
  /\ (Rounded.TimeValue_gt Binary64.round64 a b = true ->
      Rounded.TimeValue_gt Binary64.round64 b a = false)
  /\ Rounded.TimeValue_gt Binary64.round64 (MkTimeValue 1 Hours) (MkTimeValue 60 Minutes)
     = false
  /\ Rounded.TimeValue_gt Binary64.round64 (MkTimeValue 60 Minutes) (MkTimeValue 1 Hours)
     = false.
Proof.
  split; [apply (rounded_gt_true Binary64.round64 round64_mono round64_whole)|].
  split; [apply (rounded_gt_false Binary64.round64 round64_mono round64_whole)|].
  split; [|split; [|split; vm_compute; reflexivity]].
  - unfold Rounded.TimeValue_gt.
    destruct (TimeUnit_eqb _ _); apply Qltb_ge; apply Qle_refl.
  - unfold Rounded.TimeValue_gt.
    replace (TimeUnit_eqb (TimeValue.unit b) (TimeValue.unit a))
      with (TimeUnit_eqb (TimeValue.unit a) (TimeValue.unit b))
      by (destruct (TimeValue.unit a), (TimeValue.unit b); reflexivity).
    destruct (TimeUnit_eqb _ _); rewrite Qltb_lt, Qltb_ge; intros H; lra.
Qed.

End Durations.

Section IntervalOfARecomputation.

Import TimeSliderController.

Lemma intervalMS_of_estimate (rows : LayerListModel) (c c' : t) :
  initializeTimeProperties (Some rows) c = Some c' ->
  timeAwareLayers rows <> [] ->
  TimeValue.isEmpty (selectedInterval rows) = true ->
  m_intervalMS c'
  = toMilliseconds (MkTimeValue 1 (toTimeUnit (inject_Z (rangeMS (m_fullTimeExtent c'))))).
Proof.
  intros Hrun Hne Hsel.
  destruct (initializeTimeProperties_runs rows c c' Hrun Hne) as (-> & _ & -> & _).
  unfold resolve. now rewrite Hsel.
Qed.

(** C7, as the code has it.  On binary64 doubles, when no reported interval
    has a negative duration, the interval a recomputation ends its loop
    with is one a participating layer reports, no reported interval is
    longer in milliseconds, and it gives the controller's interval; one
    year is 365 days, one century 36500, one decade 3650, one month 365/12,
    one week 7, and one day 86,400,000 ms; and layers reporting one day,
    two hours and one week, in any order, give one week. *)
Theorem coarsest_interval_is_selected :
  (forall rows : LayerListModel,
      (forall v, In v (layerIntervals rows) -> TimeValue.isEmpty v = false ->
                 (0 <= TimeValue.duration v)%Q) ->
      forall v, In v (layerIntervals rows) -> TimeValue.isEmpty v = false ->
        TimeValue.isEmpty (roundedInterval Binary64.round64 rows) = false
        /\ In (roundedInterval Binary64.round64 rows) (layerIntervals rows)
        /\ (Rounded.toMilliseconds Binary64.round64 v
            <= Rounded.toMilliseconds Binary64.round64
                 (roundedInterval Binary64.round64 rows))%Q
        /\ (forall c c',
               Rounded.initializeTimeProperties Binary64.round64 (Some rows) c = Some c' ->
               m_intervalMS c'
               = Rounded.toMilliseconds Binary64.round64
                   (roundedInterval Binary64.round64 rows)))
  /\ ((Rounded.toMilliseconds Binary64.round64 (MkTimeValue 1 Years) == 365 * 86400000)%Q
      /\ (Rounded.toMilliseconds Binary64.round64 (MkTimeValue 1 Centuries)
          == 36500 * 86400000)%Q
      /\ (Rounded.toMilliseconds Binary64.round64 (MkTimeValue 1 Decades)
          == 3650 * 86400000)%Q
      /\ (Rounded.toMilliseconds Binary64.round64 (MkTimeValue 1 Months)
          == 365 / 12 * 86400000)%Q
      /\ (Rounded.toMilliseconds Binary64.round64 (MkTimeValue 1 Weeks) == 7 * 86400000)%Q
      /\ (Rounded.toMilliseconds Binary64.round64 (MkTimeValue 1 Days) == 86400000)%Q)
  /\ (forall rows : LayerListModel,
        Permutation (layerIntervals rows)
                    [MkTimeValue 1 Days; MkTimeValue 2 Hours; MkTimeValue 1 Weeks] ->
        roundedInterval Binary64.round64 rows = MkTimeValue 1 Weeks).
Proof.
  pose proof (rounded_interval_is_coarsest Binary64.round64 round64_mono round64_whole)
    as General.
  split; [exact General|]. split.
  - repeat split; vm_compute; reflexivity.
  - intros rows Hperm.
    assert (Hweek : In (MkTimeValue 1 Weeks) (layerIntervals rows)).
    { apply (Permutation_in _ (Permutation_sym Hperm)). simpl. auto. }
    destruct (General rows) with (v := MkTimeValue 1 Weeks) as (_ & Hin & Hle & _);
      [|exact Hweek|reflexivity|].
    + intros v Hv _. apply (Permutation_in _ Hperm) in Hv.
      destruct Hv as [<- | [<- | [<- | []]]]; vm_compute; discriminate.
    + apply (Permutation_in _ Hperm) in Hin.
      destruct Hin as [E | [E | [E | []]]]; [| |now symmetry];
        exfalso; rewrite <- E in Hle; vm_compute in Hle; now apply Hle.
Qed.

Lemma coarsest_interval_is_selected_witness :
  roundedInterval Binary64.round64 Scenario.dayHoursWeek = MkTimeValue 1 Weeks
  /\ In (roundedInterval Binary64.round64 Scenario.dayHoursWeek)
        (layerIntervals Scenario.dayHoursWeek)
  /\ (Rounded.toMilliseconds Binary64.round64 (MkTimeValue 1 Days)
      <= Rounded.toMilliseconds Binary64.round64
           (roundedInterval Binary64.round64 Scenario.dayHoursWeek))%Q.
Proof.
  split; [vm_compute; reflexivity|].
  destruct (proj1 coarsest_interval_is_selected Scenario.dayHoursWeek)
    with (v := MkTimeValue 1 Days) as (_ & Hin & Hle & _).
  - intros v Hv _. destruct Hv as [<- | [<- | [<- | []]]]; vm_compute; discriminate.
  - left. reflexivity.
  - reflexivity.
  - split; [exact Hin | exact Hle].
Defined.

(** C7 fails as stated.  Of layers reporting two days back, nothing, and
    three days back, the loop keeps three days back: the layer without an
    interval counts as 0 ms of an unknown unit, which is more than two days
    back, and the empty interval it leaves is replaced by whatever comes
    next.  Two days back is the longer of the two reported. *)
Lemma shorter_interval_is_selected :
  layerIntervals Scenario.daysBack
  = [MkTimeValue (-2) Days; EmptyTimeValue; MkTimeValue (-3) Days]
  /\ roundedInterval Binary64.round64 Scenario.daysBack = MkTimeValue (-3) Days
  /\ (Rounded.toMilliseconds Binary64.round64 (MkTimeValue (-3) Days) == -259200000)%Q
  /\ (Rounded.toMilliseconds Binary64.round64 (MkTimeValue (-2) Days) == -172800000)%Q
  /\ (exists c',
         Rounded.initializeTimeProperties Binary64.round64 (Some Scenario.daysBack)
           Scenario.idle = Some c'
         /\ (m_intervalMS c' == -259200000)%Q)
  /\ selectedInterval Scenario.daysBack = MkTimeValue (-3) Days.
Proof.
  split; [reflexivity|]. split; [vm_compute; reflexivity|].
  split; [vm_compute; reflexivity|]. split; [vm_compute; reflexivity|].
  split; [|vm_compute; reflexivity].
  eexists. split; vm_compute; reflexivity.
Qed.

(** C8.  The unit estimated from a range in milliseconds at the stated
    boundaries, and the estimated interval: one of that unit, used by a
    recomputation none of whose participating layers reports an interval. *)
Theorem estimated_unit_at_the_boundaries :
  toTimeUnit 59999 = Seconds
  /\ toTimeUnit 60000 = Minutes
  /\ toTimeUnit 86399999 = Hours
  /\ toTimeUnit 86400000 = Days
  /\ toTimeUnit (365 * 86400000 - 1) = Days
  /\ toTimeUnit (365 * 86400000) = Years
  /\ (forall range : Q, (100 * 365 * 86400000 < range)%Q -> toTimeUnit range = Centuries)
  /\ (forall range : Z,
        resolve EmptyTimeValue range = MkTimeValue 1 (toTimeUnit (inject_Z range)))
  /\ (forall (rows : LayerListModel) (c c' : t),
        initializeTimeProperties (Some rows) c = Some c' ->
        timeAwareLayers rows <> [] ->
        (forall v, In v (layerIntervals rows) -> TimeValue.isEmpty v = true) ->
        m_intervalMS c'
        = toMilliseconds
            (MkTimeValue 1 (toTimeUnit (inject_Z (rangeMS (m_fullTimeExtent c')))))).
Proof.
  do 6 (split; [reflexivity|]). split; [|split].
  - intros range H. unfold toTimeUnit.
    repeat match goal with
           | |- context [Cpp.Qltb ?a ?b] =>
               let E := fresh "E" in
               destruct (Cpp.Qltb a b) eqn:E;
               [apply Qltb_lt in E | apply Qltb_ge in E]
           end; try reflexivity; exfalso; lra.
  - reflexivity.
  - intros rows c c' Hrun Hne Hnone.
    apply (intervalMS_of_estimate rows c c' Hrun Hne).
    unfold selectedInterval. now rewrite coarser_fold_empty.
Qed.

Lemma estimated_unit_at_the_boundaries_witness :
  toTimeUnit (100 * 365 * 86400000 + 1) = Centuries
  /\ exists c',
       initializeTimeProperties (Some Scenario.noInterval) Scenario.idle = Some c'
       /\ m_fullTimeExtent c' = Scenario.extent 0 60000
       /\ m_intervalMS c' = toMilliseconds (MkTimeValue 1 Minutes).
Proof.
  destruct estimated_unit_at_the_boundaries as (_ & _ & _ & _ & _ & _ & Hc & _ & Hrun).
  split; [apply Hc; reflexivity|].
  eexists. split; [vm_compute; reflexivity|]. split; [reflexivity|].
  refine (Hrun Scenario.noInterval Scenario.idle _ _ _ _).
  - vm_compute. reflexivity.
  - vm_compute. discriminate.
  - intros v [<- | [<- | []]]; reflexivity.
Defined.

End IntervalOfARecomputation.

(** ** The full extent over the life of a controller *)

Section FullExtent.

Import TimeSliderController.

Lemma contains_refl (a : TimeExtent) : contains a a.
Proof. destruct a; simpl; [exact I | lia]. Qed.

Lemma contains_trans (a b c : TimeExtent) :
  contains a b -> contains b c -> contains a c.
Proof.
  destruct c as [|cs ce]; simpl; [trivial|].
  destruct b as [|bs be]; simpl; [intros _ []|].
  destruct a as [|as' ae]; simpl; [intros []|]. lia.
Qed.

Lemma unionTimeExtent_contains (a b : TimeExtent) : contains (unionTimeExtent a b) b.
Proof.
  unfold unionTimeExtent. destruct b as [|bs be]; simpl; [destruct a; exact I|].
  unfold QDateTime.gtb, QDateTime.ltb.
  destruct (QDateTime.toMSecsSinceEpoch (TimeExtent.startTime a)
            <? QDateTime.toMSecsSinceEpoch bs) eqn:Hs;
    destruct (QDateTime.toMSecsSinceEpoch be
              <? QDateTime.toMSecsSinceEpoch (TimeExtent.endTime a)) eqn:He;
    rewrite ?Z.ltb_lt, ?Z.ltb_ge in *; simpl; lia.
Qed.

Lemma setFullTimeExtent_contains (e : TimeExtent) (c : t) :
  contains e (m_fullTimeExtent c) ->
  contains (m_fullTimeExtent (setFullTimeExtent e c)) (m_fullTimeExtent c).
Proof.
  intros H. unfold setFullTimeExtent.
  destruct (TimeExtent_eq e (m_fullTimeExtent c)); simpl; [apply contains_refl | exact H].
Qed.

Lemma visit_contains (l : list TimeAware.t) :
  forall (c : t) (v : TimeValue),
    contains (m_fullTimeExtent (fst (fold_left visit l (c, v)))) (m_fullTimeExtent c).
Proof.
  induction l as [|a l IH]; intros c v; simpl; [apply contains_refl|].
  eapply contains_trans; [apply IH|].
  apply setFullTimeExtent_contains, unionTimeExtent_contains.
Qed.

Lemma initializeTimeProperties_contains (layers : option LayerListModel) (c c' : t) :
  initializeTimeProperties layers c = Some c' ->
  contains (m_fullTimeExtent c') (m_fullTimeExtent c).
Proof.
  intros H. destruct layers as [rows|]; [|injection H as <-; apply contains_refl].
  destruct (timeAwareLayers rows) as [|a l] eqn:E.
  - rewrite initializeTimeProperties_skips in H by exact E.
    injection H as <-. apply contains_refl.
  - destruct (initializeTimeProperties_runs rows c c' H) as (-> & _).
    + rewrite E. discriminate.
    + apply visit_contains.
Qed.

Lemma setter_fullTimeExtent (e : TimeExtent) (c c1 : t) :
  calculateStepPositions (setTimeExtent e c) = Some c1 ->
  m_fullTimeExtent (emit currentTimeExtentChanged c1) = m_fullTimeExtent c.
Proof.
  intros H. apply calculateStepPositions_frame in H as (_ & F & _).
  simpl. rewrite F. apply fullTimeExtent_setTimeExtent.
Qed.

Lemma step_contains (op : Op) (c c' : t) :
  step op c = Some c' -> contains (m_fullTimeExtent c') (m_fullTimeExtent c).
Proof.
  destruct op as [layers | geoView layers | i | i | i j | e]; simpl; intros H.
  - now apply (initializeTimeProperties_contains layers).
  - unfold setGeoView in H. apply bind_Some in H as (c1 & H1 & H).
    apply bind_Some in H as (c2 & H2 & H). injection H as <-.
    apply calculateStepPositions_frame in H2 as (_ & F2 & _). simpl. rewrite F2.
    destruct geoView; [injection H1 as <-; apply contains_refl | |];
      (destruct layers as [rows|];
       [apply (initializeTimeProperties_contains _ _ _ H1)
       | injection H1 as <-; apply contains_refl]).
  - unfold setStartInterval in H.
    destruct (TimeExtent.isEmpty _); [injection H as <-; apply contains_refl|].
    apply bind_Some in H as (d & _ & H). apply bind_Some in H as (c1 & H1 & H).
    injection H as <-. rewrite (setter_fullTimeExtent _ _ _ H1). apply contains_refl.
  - unfold setEndInterval in H.
    destruct (TimeExtent.isEmpty _); [injection H as <-; apply contains_refl|].
    apply bind_Some in H as (d & _ & H). apply bind_Some in H as (c1 & H1 & H).
    injection H as <-. rewrite (setter_fullTimeExtent _ _ _ H1). apply contains_refl.
  - unfold setStartAndEndIntervals in H.
    destruct (TimeExtent.isEmpty _); [injection H as <-; apply contains_refl|].
    apply bind_Some in H as (d & _ & H). apply bind_Some in H as (d' & _ & H).
    apply bind_Some in H as (c1 & H1 & H).
    injection H as <-. rewrite (setter_fullTimeExtent _ _ _ H1). apply contains_refl.
  - injection H as <-. unfold viewShows. destruct (m_geoView c); apply contains_refl.
Qed.

(** C4.  Whatever is done to a controller, in any order (recomputations
    over any layers, attaching views, step setters, the view changing its
    extent), the full extent it ends with covers the full extent it started
    with. *)
Theorem fullTimeExtent_only_widens (ops : list Op) :
  forall c c' : t,
    run ops c = Some c' -> contains (m_fullTimeExtent c') (m_fullTimeExtent c).
Proof.
  induction ops as [|op ops IH]; intros c c' H; simpl in H.
  - injection H as <-. apply contains_refl.
  - apply bind_Some in H as (c1 & H1 & H).
    eapply contains_trans; [apply (IH _ _ H) | apply (step_contains _ _ _ H1)].
Qed.

End FullExtent.

Section FullExtentOnExamples.

Import TimeSliderController.

Lemma fullTimeExtent_only_widens_witness :
  exists c1 c2,
    run [OperationalLayersChanged (Some Scenario.everySecond)] Scenario.idle = Some c1
    /\ run [OperationalLayersChanged (Some Scenario.shorter); SetStartInterval 1] c1 = Some c2
    /\ m_fullTimeExtent c1 = Scenario.extent 0 3000
    /\ m_fullTimeExtent c2 = Scenario.extent 0 3000
    /\ contains (m_fullTimeExtent c2) (m_fullTimeExtent c1).
Proof.
  eexists. eexists. split; [vm_compute; reflexivity|].
  split; [vm_compute; reflexivity|]. split; [reflexivity|]. split; [reflexivity|].
  apply (fullTimeExtent_only_widens
           [OperationalLayersChanged (Some Scenario.shorter); SetStartInterval 1]).
  vm_compute. reflexivity.
Defined.

End FullExtentOnExamples.

(** ** The union of two extents *)

Section Union.

Import TimeSliderController.

(** The union of extents with valid bounds, and of any extent with an empty
    second one. *)
Theorem unionTimeExtent_laws :
  (forall a : TimeExtent, unionTimeExtent a EmptyExtent = a)
  /\ (forall s e s' e' : Z,
        unionTimeExtent (Scenario.extent s e) (Scenario.extent s' e')
        = Scenario.extent (Z.min s s') (Z.max e e'))
  /\ (forall s e s' e' : Z,
        unionTimeExtent (Scenario.extent s e) (Scenario.extent s' e')
        = unionTimeExtent (Scenario.extent s' e') (Scenario.extent s e))
  /\ (forall s e s' e' s'' e'' : Z,
        unionTimeExtent (unionTimeExtent (Scenario.extent s e) (Scenario.extent s' e'))
                        (Scenario.extent s'' e'')
        = unionTimeExtent (Scenario.extent s e)
                          (unionTimeExtent (Scenario.extent s' e') (Scenario.extent s'' e''))).
Proof.
  assert (Formula : forall s e s' e' : Z,
             unionTimeExtent (Scenario.extent s e) (Scenario.extent s' e')
             = Scenario.extent (Z.min s s') (Z.max e e')).
  { intros s e s' e'. unfold unionTimeExtent, Scenario.extent. simpl.
    unfold QDateTime.gtb, QDateTime.ltb. simpl.
    destruct (s <? s') eqn:Hs; destruct (e' <? e) eqn:He;
      rewrite ?Z.ltb_lt, ?Z.ltb_ge in *; do 2 f_equal; lia. }
  split; [reflexivity|]. split; [exact Formula|]. split.
  - intros. rewrite !Formula. now rewrite Z.min_comm, Z.max_comm.
  - intros. rewrite !Formula. now rewrite Z.min_assoc, Z.max_assoc.
Qed.

(** C3 fails on the code.  With the empty extent first, the union keeps a
    null start instead of the start of the other extent; a recomputation over
    a layer that reports no extent so moves the start of the full extent and
    every step time to the null date-time. *)
Lemma unionTimeExtent_empty_first :
  unionTimeExtent EmptyExtent (Scenario.extent 10 20)
  = Extent QDateTime.Null (QDateTime.MSecs 20)
  /\ unionTimeExtent (Scenario.extent 10 20) EmptyExtent = Scenario.extent 10 20
  /\ exists c c',
       initializeTimeProperties (Some Scenario.fromOneSecond) Scenario.idle = Some c
       /\ m_fullTimeExtent c = Scenario.extent 1000 5000
       /\ initializeTimeProperties (Some Scenario.withoutExtent) c = Some c'
       /\ m_fullTimeExtent c' = Extent QDateTime.Null (QDateTime.MSecs 5000)
       /\ m_stepTimes c' = repeat QDateTime.Null 6.
Proof.
  split; [reflexivity|]. split; [reflexivity|].
  eexists. eexists. split; [vm_compute; reflexivity|]. split; [reflexivity|].
  split; [vm_compute; reflexivity|]. split; reflexivity.
Qed.

End Union.

(** ** Signals of a recomputation *)

Section Signals.

Import TimeSliderController.

Lemma contains_antisym (a b : TimeExtent) :
  contains a b -> contains b a -> TimeExtent_eq a b = true.
Proof.
  destruct a as [|s e], b as [|s' e']; simpl; try tauto.
  intros [H1 H2] [H3 H4]. unfold TimeExtent_eq, QDateTime.eqb. simpl.
  apply andb_true_iff. rewrite !Z.eqb_eq. lia.
Qed.

Lemma visit_numberOfSteps (l : list TimeAware.t) (c : t) (v : TimeValue) :
  m_numberOfSteps (fst (fold_left visit l (c, v))) = m_numberOfSteps c.
Proof.
  revert c v. induction l as [|a l IH]; intros c v; simpl; [reflexivity|].
  rewrite IH. unfold setFullTimeExtent. destruct (TimeExtent_eq _ _); reflexivity.
Qed.

(** The loop emits [fullTimeExtentChanged] once for each layer that widens
    the full extent, and not at all exactly when it leaves the full extent
    as it was. *)
Lemma visit_emitted (l : list TimeAware.t) :
  forall (c : t) (v : TimeValue),
    exists k : nat,
      emitted (fst (fold_left visit l (c, v)))
      = emitted c ++ repeat fullTimeExtentChanged k
      /\ (k = 0%nat <->
          m_fullTimeExtent (fst (fold_left visit l (c, v))) = m_fullTimeExtent c).
Proof.
  induction l as [|a l IH]; intros c v; simpl.
  - exists 0%nat. simpl. rewrite app_nil_r. tauto.
  - pose proof (visit_contains l
                  (setFullTimeExtent
                     (unionTimeExtent (TimeAware.fullTimeExtent a) (m_fullTimeExtent c)) c)
                  (coarser v (TimeAware.timeInterval a))) as Hwide.
    destruct (IH (setFullTimeExtent
                    (unionTimeExtent (TimeAware.fullTimeExtent a) (m_fullTimeExtent c)) c)
                 (coarser v (TimeAware.timeInterval a))) as (k & Hk & Hiff).
    revert Hwide Hk Hiff. unfold setFullTimeExtent.
    destruct (TimeExtent_eq (unionTimeExtent (TimeAware.fullTimeExtent a) (m_fullTimeExtent c))
                            (m_fullTimeExtent c)) eqn:E; intros Hwide Hk Hiff.
    + exists k. auto.
    + exists (S k). simpl in Hk, Hwide. split.
      * rewrite Hk, <- app_assoc. reflexivity.
      * split; [discriminate|]. intros Hsame. exfalso.
        rewrite Hsame in Hwide.
        pose proof (unionTimeExtent_contains (TimeAware.fullTimeExtent a)
                      (m_fullTimeExtent c)) as Hu.
        rewrite (contains_antisym _ _ Hu Hwide) in E. discriminate E.
Qed.

Lemma setNumberOfSteps_emitted (n : Z) (c : t) :
  emitted (setNumberOfSteps n c)
  = emitted c ++ (if n =? m_numberOfSteps c then [] else [numberOfStepsChanged]).
Proof.
  unfold setNumberOfSteps. destruct (n =? m_numberOfSteps c); simpl;
    [now rewrite app_nil_r | reflexivity].
Qed.

Lemma calculateStepPositions_emitted (c c' : t) :
  calculateStepPositions c = Some c' ->
  emitted c'
  = emitted c ++ (if TimeExtent.isEmpty (m_fullTimeExtent c) then []
                  else [startStepChanged; endStepChanged]).
Proof.
  unfold calculateStepPositions. destruct (TimeExtent.isEmpty (m_fullTimeExtent c)).
  - intros [= <-]. now rewrite app_nil_r.
  - intros H. apply bind_Some in H as (s & _ & H). apply bind_Some in H as (e & _ & H).
    injection H as <-. simpl. now rewrite <- app_assoc.
Qed.

Lemma setStepTimes_emitted (c c' : t) :
  setStepTimes c = Some c' -> emitted c' = emitted c ++ [stepTimesChanged].
Proof.
  unfold setStepTimes. intros H. apply bind_Some in H as (l & _ & H).
  now injection H as <-.
Qed.

(** The signals of a recomputation that runs, in their order. *)
Lemma initializeTimeProperties_emitted (rows : LayerListModel) (c c' : t) :
  initializeTimeProperties (Some rows) c = Some c' ->
  timeAwareLayers rows <> [] ->
  exists k : nat,
    emitted c'
    = emitted c
      ++ repeat fullTimeExtentChanged k
      ++ (if m_numberOfSteps c' =? m_numberOfSteps c then [] else [numberOfStepsChanged])
      ++ (if TimeExtent.isEmpty (m_fullTimeExtent c') then []
          else [startStepChanged; endStepChanged])
      ++ [stepTimesChanged; currentTimeExtentChanged]
    /\ (k = 0%nat <-> m_fullTimeExtent c' = m_fullTimeExtent c).
Proof.
  unfold initializeTimeProperties. intros H Hne.
  destruct (timeAwareLayers rows) as [|a l] eqn:Hl; [contradiction|].
  destruct (visit_emitted (a :: l) c EmptyTimeValue) as (k & Hk & Hiff).
  pose proof (visit_numberOfSteps (a :: l) c EmptyTimeValue) as Hsteps.
  destruct (fold_left visit (a :: l) (c, EmptyTimeValue)) as [c1 ts].
  cbn [fst] in Hk, Hiff, Hsteps.
  apply bind_Some in H as (q & Hq & H). apply bind_Some in H as (n & Hn & H).
  apply bind_Some in H as (c3 & H3 & H). apply bind_Some in H as (c4 & H4 & H).
  injection H as <-.
  pose proof (calculateStepPositions_emitted _ _ H3) as E3.
  apply calculateStepPositions_frame in H3 as (_ & F3 & _ & N3 & _).
  pose proof (setStepTimes_emitted _ _ H4) as E4.
  apply setStepTimes_frame in H4 as (_ & F4 & _ & N4 & _).
  rewrite setNumberOfSteps_emitted in E3.
  match type of F3 with
  | _ = m_fullTimeExtent (setNumberOfSteps n ?c2) =>
      destruct (setNumberOfSteps_spec n c2) as (N & _ & F & _)
  end.
  rewrite N in N3. rewrite F in F3, E3.
  cbn [m_fullTimeExtent m_numberOfSteps emitted emit with_intervalMS] in *.
  exists k. split.
  - rewrite E4, E3, Hk, F4, F3, N4, N3, Hsteps. rewrite <- !app_assoc. reflexivity.
  - now rewrite F4, F3.
Qed.

(** What a recomputation emits only on a change: [fullTimeExtentChanged]
    and [numberOfStepsChanged] are among its signals exactly when the full
    extent, respectively the number of steps, is not what it was, and a
    recomputation over no participating layer emits nothing. *)
Theorem guarded_signals_of_a_recomputation (layers : option LayerListModel) (c c' : t) :
  initializeTimeProperties layers c = Some c' ->
  exists signals : list Signal,
    emitted c' = emitted c ++ signals
    /\ (In fullTimeExtentChanged signals <-> m_fullTimeExtent c' <> m_fullTimeExtent c)
    /\ (In numberOfStepsChanged signals <-> m_numberOfSteps c' <> m_numberOfSteps c)
    /\ (layers = None \/ (exists rows, layers = Some rows /\ timeAwareLayers rows = []) ->
        signals = []).
Proof.
  intros H.
  assert (Skip : c' = c ->
            exists signals : list Signal,
              emitted c' = emitted c ++ signals
              /\ (In fullTimeExtentChanged signals
                  <-> m_fullTimeExtent c' <> m_fullTimeExtent c)
              /\ (In numberOfStepsChanged signals
                  <-> m_numberOfSteps c' <> m_numberOfSteps c)
              /\ (layers = None
                  \/ (exists rows, layers = Some rows /\ timeAwareLayers rows = []) ->
                  signals = [])).
  { intros ->. exists []. rewrite app_nil_r.
    split; [reflexivity|]. split; [simpl; tauto|]. split; [simpl; tauto|]. reflexivity. }
  destruct layers as [rows|]; [|injection H as <-; apply Skip; reflexivity].
  destruct (timeAwareLayers rows) as [|a l] eqn:Hl.
  - rewrite initializeTimeProperties_skips in H by exact Hl. injection H as <-.
    apply Skip; reflexivity.
  - destruct (initializeTimeProperties_emitted rows c c' H) as (k & Hk & Hiff);
      [rewrite Hl; discriminate|].
    eexists. split; [exact Hk|]. split; [|split].
    + rewrite !in_app_iff. split.
      * intros Hin Hsame. apply Hiff in Hsame. subst k. simpl in Hin.
        destruct (m_numberOfSteps c' =? m_numberOfSteps c);
          destruct (TimeExtent.isEmpty (m_fullTimeExtent c')); simpl in Hin;
          intuition discriminate.
      * intros Hdiff. left. destruct k as [|k]; [|now left].
        exfalso. apply Hdiff. now apply Hiff.
    + rewrite !in_app_iff. split.
      * intros [Hin | [Hin | Hin]] Hsame.
        -- apply repeat_spec in Hin. discriminate Hin.
        -- rewrite Hsame, Z.eqb_refl in Hin. destruct Hin.
        -- destruct (TimeExtent.isEmpty (m_fullTimeExtent c')); simpl in Hin;
             intuition discriminate.
      * intros Hdiff. right. left. apply Z.eqb_neq in Hdiff. rewrite Hdiff. now left.
    + intros [E | (rows' & [= <-] & E)]; [discriminate | rewrite Hl in E; discriminate].
Qed.

Lemma guarded_signals_of_a_recomputation_witness :
  exists c' signals,
    initializeTimeProperties (Some Scenario.everySecond) Scenario.idle = Some c'
    /\ emitted c' = emitted Scenario.idle ++ signals
    /\ In fullTimeExtentChanged signals
    /\ In numberOfStepsChanged signals
    /\ m_fullTimeExtent c' <> m_fullTimeExtent Scenario.idle
    /\ m_numberOfSteps c' <> m_numberOfSteps Scenario.idle.
Proof.
  destruct (guarded_signals_of_a_recomputation (Some Scenario.everySecond) Scenario.idle
              Scenario.idleBySeconds ltac:(vm_compute; reflexivity))
    as (signals & Hemitted & Hfull & Hcount & _).
  simpl in Hemitted. subst signals.
  eexists. eexists. split; [vm_compute; reflexivity|]. split; [reflexivity|].
  split; [simpl; auto|]. split; [simpl; auto|]. split.
  - apply Hfull. simpl. auto.
  - apply Hcount. simpl. auto.
Defined.

(** C1 fails on the code.  A second recomputation over the same layers
    changes no value, and still emits [startStepChanged], [endStepChanged],
    [stepTimesChanged] and [currentTimeExtentChanged].  The source
    documents [currentTimeExtentChanged], [startStepChanged] and
    [endStepChanged] as emitted when the property changes (lines 586-599),
    and [setStartStep] and [setEndStep] (lines 478-485 and 517-524) compare
    before they emit. *)
Lemma unchanged_recomputation_emits :
  exists c1 c2,
    initializeTimeProperties (Some Scenario.everySecond) Scenario.idle = Some c1
    /\ initializeTimeProperties (Some Scenario.everySecond) c1 = Some c2
    /\ m_fullTimeExtent c2 = m_fullTimeExtent c1
    /\ m_numberOfSteps c2 = m_numberOfSteps c1
    /\ m_stepTimes c2 = m_stepTimes c1
    /\ m_startStep c2 = m_startStep c1
    /\ m_endStep c2 = m_endStep c1
    /\ currentTimeExtent c2 = currentTimeExtent c1
    /\ emitted c2
       = emitted c1
         ++ [startStepChanged; endStepChanged; stepTimesChanged; currentTimeExtentChanged].
Proof.
  eexists. eexists. split; [vm_compute; reflexivity|].
  split; [vm_compute; reflexivity|]. repeat split.
Qed.

End Signals.

(** ** When a recomputation is defined *)

Section Defined.

Import TimeSliderController.





End Defined.

Section DefinedOnExamples.

Import TimeSliderController.


End DefinedOnExamples.

(** ** The step times over the life of a controller *)

Section StepsAlongRuns.

Import TimeSliderController.

Lemma stepTimesCounted_axis (c c' : t) :
  axis c' = axis c -> stepTimesCounted c -> stepTimesCounted c'.
Proof.
  unfold axis, stepTimesCounted. intros [= _ _ -> ->]. trivial.
Qed.

Lemma calculateStepPositions_axis (c c' : t) :
  calculateStepPositions c = Some c' -> axis c' = axis c.
Proof.
  intros H. apply calculateStepPositions_frame in H as (_ & F & I & N & T & _).
  unfold axis. now rewrite F, I, N, T.
Qed.

Lemma setTimeExtent_axis (e : TimeExtent) (c : t) : axis (setTimeExtent e c) = axis c.
Proof. unfold setTimeExtent. destruct (m_geoView c); reflexivity. Qed.

Lemma setter_axis (e : TimeExtent) (c c1 : t) :
  calculateStepPositions (setTimeExtent e c) = Some c1 ->
  axis (emit currentTimeExtentChanged c1) = axis c.
Proof.
  intros H. apply calculateStepPositions_axis in H.
  rewrite setTimeExtent_axis in H. exact H.
Qed.

Lemma initializeTimeProperties_stepTimesCounted
      (layers : option LayerListModel) (c c' : t) :
  initializeTimeProperties layers c = Some c' -> stepTimesCounted c -> stepTimesCounted c'.
Proof.
  intros H Hc. destruct layers as [rows|]; [|now injection H as <-].
  destruct (timeAwareLayers rows) as [|a l] eqn:E.
  - rewrite initializeTimeProperties_skips in H by exact E. now injection H as <-.
  - destruct (initializeTimeProperties_runs rows c c' H)
      as (_ & _ & _ & _ & Htimes); [rewrite E; discriminate|].
    unfold stepTimesCounted. rewrite (stepTimesFrom_length _ _ _ _ _ Htimes). lia.
Qed.

Lemma step_stepTimesCounted (op : Op) (c c' : t) :
  step op c = Some c' -> stepTimesCounted c -> stepTimesCounted c'.
Proof.
  destruct op as [layers | geoView layers | i | i | i j | e]; simpl; intros H Hc.
  - now apply (initializeTimeProperties_stepTimesCounted layers c).
  - unfold setGeoView in H. apply bind_Some in H as (c1 & H1 & H).
    apply bind_Some in H as (c2 & H2 & H). injection H as <-.
    apply calculateStepPositions_axis in H2.
    apply (stepTimesCounted_axis c1); [exact H2|].
    destruct geoView; [now injection H1 as <- | |];
      (destruct layers as [rows|];
       [apply (initializeTimeProperties_stepTimesCounted _ _ _ H1); exact Hc
       | injection H1 as <-; exact Hc]).
  - unfold setStartInterval in H.
    destruct (TimeExtent.isEmpty _); [now injection H as <-|].
    apply bind_Some in H as (d & _ & H). apply bind_Some in H as (c1 & H1 & H).
    injection H as <-.
    apply (stepTimesCounted_axis c); [apply (setter_axis _ _ _ H1) | exact Hc].
  - unfold setEndInterval in H.
    destruct (TimeExtent.isEmpty _); [now injection H as <-|].
    apply bind_Some in H as (d & _ & H). apply bind_Some in H as (c1 & H1 & H).
    injection H as <-.
    apply (stepTimesCounted_axis c); [apply (setter_axis _ _ _ H1) | exact Hc].
  - unfold setStartAndEndIntervals in H.
    destruct (TimeExtent.isEmpty _); [now injection H as <-|].
    apply bind_Some in H as (d & _ & H). apply bind_Some in H as (d' & _ & H).
    apply bind_Some in H as (c1 & H1 & H).
    injection H as <-.
    apply (stepTimesCounted_axis c); [apply (setter_axis _ _ _ H1) | exact Hc].
  - injection H as <-. apply (stepTimesCounted_axis c); [|exact Hc].
    unfold viewShows. destruct (m_geoView c); reflexivity.
Qed.

(** Whatever is done to a controller that has as many step times as steps,
    in any order, it still has as many step times as steps. *)
Theorem stepTimes_counted_along_runs (ops : list Op) :
  forall c c' : t,
    stepTimesCounted c -> run ops c = Some c' -> stepTimesCounted c'.
Proof.
  induction ops as [|op ops IH]; intros c c' Hc H; simpl in H.
  - now injection H as <-.
  - apply bind_Some in H as (c1 & H1 & H).
    apply (IH c1 c'); [apply (step_stepTimesCounted op c c1 H1 Hc) | exact H].
Qed.

Lemma stepTimes_counted_along_runs_witness :
  exists c',
    run [SetGeoView (MapQuickView EmptyExtent) (Some Scenario.everySecond);
         SetStartInterval 1;
         OperationalLayersChanged (Some Scenario.shorter);
         ViewShows (Scenario.extent 500 2500);
         OperationalLayersChanged (Some [])]
        Scenario.idle = Some c'
    /\ m_numberOfSteps c' = 4
    /\ stepTimesCounted c'.
Proof.
  eexists. split; [vm_compute; reflexivity|]. split; [reflexivity|].
  apply (stepTimes_counted_along_runs
           [SetGeoView (MapQuickView EmptyExtent) (Some Scenario.everySecond);
            SetStartInterval 1;
            OperationalLayersChanged (Some Scenario.shorter);
            ViewShows (Scenario.extent 500 2500);
            OperationalLayersChanged (Some [])]
           Scenario.idle); [reflexivity | vm_compute; reflexivity].
Defined.

(** The current extent is the view's, and the full extent when the view
    shows none or there is no view. *)
Theorem currentTimeExtent_falls_back (c : t) :
  (m_geoView c = MapQuickView EmptyExtent \/ m_geoView c = SceneQuickView EmptyExtent
   \/ m_geoView c = NoGeoView ->
   currentTimeExtent c = m_fullTimeExtent c
   /\ currentExtentStart c = fullExtentStart c
   /\ currentExtentEnd c = fullExtentEnd c)
  /\ (forall s e, m_geoView c = MapQuickView (Extent s e)
                  \/ m_geoView c = SceneQuickView (Extent s e) ->
       currentTimeExtent c = Extent s e).
Proof.
  unfold currentExtentStart, currentExtentEnd, fullExtentStart, fullExtentEnd,
    currentTimeExtent.
  split.
  - intros [-> | [-> | ->]]; simpl; auto.
    destruct (TimeExtent.isEmpty (m_fullTimeExtent c)); auto.
  - intros s e [-> | ->]; reflexivity.
Qed.

End StepsAlongRuns.

(** ** The full extent as the hull of the layers' extents *)

Section Hull.

Import TimeSliderController.

Lemma unionTimeExtent_contains_first (a b : TimeExtent) : contains (unionTimeExtent a b) a.
Proof.
  unfold unionTimeExtent. destruct b as [|bs be]; simpl; [apply contains_refl|].
  destruct a as [|s e]; [exact I|]. simpl. unfold QDateTime.gtb, QDateTime.ltb.
  destruct (QDateTime.toMSecsSinceEpoch s <? QDateTime.toMSecsSinceEpoch bs) eqn:Hs;
    destruct (QDateTime.toMSecsSinceEpoch be <? QDateTime.toMSecsSinceEpoch e) eqn:He;
    rewrite ?Z.ltb_lt, ?Z.ltb_ge in *; simpl; lia.
Qed.

Lemma unionTimeExtent_least (x a b : TimeExtent) :
  TimeExtent.isEmpty a = false ->
  contains x a -> contains x b -> contains x (unionTimeExtent a b).
Proof.
  intros Ha Hxa Hxb. unfold unionTimeExtent.
  destruct b as [|bs be]; simpl; [exact Hxa|].
  destruct a as [|s e]; [discriminate Ha|].
  destruct x as [|xs xe]; [destruct Hxa|]. simpl in *.
  destruct (QDateTime.ltb s bs); destruct (QDateTime.gtb e be); lia.
Qed.

Lemma not_the_empty_extent (a : TimeExtent) :
  TimeExtent_eq a EmptyExtent = false -> TimeExtent.isEmpty a = false.
Proof. destruct a; [discriminate | reflexivity]. Qed.

(** One layer whose extent [operator ==] tells from the empty one: the full
    extent kept covers the layer's extent, and whatever covers the layer's
    extent and the full extent before covers it. *)
Lemma setFullTimeExtent_union (a : TimeExtent) (c : t) :
  TimeExtent_eq a EmptyExtent = false ->
  let c' := setFullTimeExtent (unionTimeExtent a (m_fullTimeExtent c)) c in
  contains (m_fullTimeExtent c') a
  /\ (forall x, contains x (m_fullTimeExtent c) -> contains x a ->
                contains x (m_fullTimeExtent c')).
Proof.
  intros Ha. cbv zeta. unfold setFullTimeExtent.
  destruct (TimeExtent_eq (unionTimeExtent a (m_fullTimeExtent c)) (m_fullTimeExtent c)) eqn:E.
  - split; [|intros x Hx _; exact Hx].
    pose proof (unionTimeExtent_contains_first a (m_fullTimeExtent c)) as Hu.
    destruct (m_fullTimeExtent c) as [|fs fe] eqn:F.
    + change (unionTimeExtent a EmptyExtent) with a in E. congruence.
    + destruct a as [|s e]; [exact I|].
      unfold unionTimeExtent in E, Hu. simpl in E, Hu.
      unfold TimeExtent_eq, QDateTime.eqb in E. simpl in E.
      apply andb_true_iff in E. rewrite !Z.eqb_eq in E. simpl. lia.
  - simpl. split; [apply unionTimeExtent_contains_first|].
    intros x Hx Hxa. apply unionTimeExtent_least; [now apply not_the_empty_extent | | ]; assumption.
Qed.

Lemma visit_hull (l : list TimeAware.t) :
  forall (c : t) (v : TimeValue),
    (forall ta, In ta l -> TimeExtent_eq (TimeAware.fullTimeExtent ta) EmptyExtent = false) ->
    let c1 := fst (fold_left visit l (c, v)) in
    (forall ta, In ta l -> contains (m_fullTimeExtent c1) (TimeAware.fullTimeExtent ta))
    /\ (forall x, contains x (m_fullTimeExtent c) ->
                  (forall ta, In ta l -> contains x (TimeAware.fullTimeExtent ta)) ->
                  contains x (m_fullTimeExtent c1)).
Proof.
  induction l as [|a l IH]; intros c v Hl; cbv zeta.
  - simpl. split; [intros ta [] | intros x Hx _; exact Hx].
  - simpl fold_left.
    set (ca := setFullTimeExtent
                 (unionTimeExtent (TimeAware.fullTimeExtent a) (m_fullTimeExtent c)) c).
    destruct (setFullTimeExtent_union (TimeAware.fullTimeExtent a) c (Hl a (or_introl eq_refl)))
      as (Hcov & Hleast).
    fold ca in Hcov, Hleast.
    destruct (IH ca (coarser v (TimeAware.timeInterval a))
                 (fun ta Hta => Hl ta (or_intror Hta))) as (IHcov & IHleast).
    pose proof (visit_contains l ca (coarser v (TimeAware.timeInterval a))) as Hwide.
    split.
    + intros ta [<- | Hta]; [|now apply IHcov].
      eapply contains_trans; [exact Hwide | exact Hcov].
    + intros x Hx Hall. apply IHleast.
      * apply Hleast; [exact Hx | apply Hall; now left].
      * intros ta Hta. apply Hall. now right.
Qed.

(** The full extent after a recomputation is the hull of the extents of
    the participating layers and of the full extent before: it covers each
    of them, and whatever covers each of them covers it.  Asked of layers
    whose extent [operator ==] tells from the empty one. *)
Theorem fullTimeExtent_is_the_hull (rows : LayerListModel) (c c' : t) :
  initializeTimeProperties (Some rows) c = Some c' ->
  (forall ta, In ta (timeAwareLayers rows) ->
              TimeExtent_eq (TimeAware.fullTimeExtent ta) EmptyExtent = false) ->
  (forall ta, In ta (timeAwareLayers rows) ->
              contains (m_fullTimeExtent c') (TimeAware.fullTimeExtent ta))
  /\ contains (m_fullTimeExtent c') (m_fullTimeExtent c)
  /\ (forall x : TimeExtent,
        contains x (m_fullTimeExtent c) ->
        (forall ta, In ta (timeAwareLayers rows) ->
                    contains x (TimeAware.fullTimeExtent ta)) ->
        contains x (m_fullTimeExtent c')).
Proof.
  intros H Hl.
  destruct (timeAwareLayers rows) as [|a l] eqn:E.
  - rewrite initializeTimeProperties_skips in H by exact E. injection H as <-.
    split; [intros ta []|]. split; [apply contains_refl | intros x Hx _; exact Hx].
  - destruct (initializeTimeProperties_runs rows c c' H) as (F & _);
      [rewrite E; discriminate|].
    rewrite E in F. rewrite F.
    destruct (visit_hull (a :: l) c EmptyTimeValue Hl) as (Hcov & Hleast).
    split; [exact Hcov|]. split; [apply visit_contains | exact Hleast].
Qed.

Lemma fullTimeExtent_is_the_hull_witness :
  exists c',
    initializeTimeProperties
      (Some (Scenario.shorter ++ Scenario.everySecond ++ Scenario.fromOneSecond))
      Scenario.idle = Some c'
    /\ m_fullTimeExtent c' = Scenario.extent 0 5000
    /\ contains (m_fullTimeExtent c') (Scenario.extent 1000 2000)
    /\ contains (m_fullTimeExtent c') (Scenario.extent 0 3000)
    /\ contains (m_fullTimeExtent c') (Scenario.extent 1000 5000)
    /\ contains (Scenario.extent (-1) 6000) (m_fullTimeExtent c').
Proof.
  eexists. split; [vm_compute; reflexivity|]. split; [reflexivity|].
  destruct (fullTimeExtent_is_the_hull
              (Scenario.shorter ++ Scenario.everySecond ++ Scenario.fromOneSecond)
              Scenario.idle
              (make NoGeoView (Scenario.extent 0 5000) 1000 6
                 [QDateTime.MSecs 0; QDateTime.MSecs 1000; QDateTime.MSecs 2000;
                  QDateTime.MSecs 3000; QDateTime.MSecs 4000; QDateTime.MSecs 5000]
                 0 5
                 [fullTimeExtentChanged; fullTimeExtentChanged; fullTimeExtentChanged;
                  numberOfStepsChanged; startStepChanged; endStepChanged;
                  stepTimesChanged; currentTimeExtentChanged] [])) as (Hcov & _ & Hleast).
  - vm_compute. reflexivity.
  - intros ta [<- | [<- | [<- | []]]]; reflexivity.
  - split; [|split; [|split]].
    + apply (Hcov (TimeAware.make (Scenario.extent 1000 2000) (MkTimeValue 1 Seconds) true)).
      simpl. auto.
    + apply (Hcov (TimeAware.make (Scenario.extent 0 3000) (MkTimeValue 1 Seconds) true)).
      simpl. auto.
    + apply (Hcov (TimeAware.make (Scenario.extent 1000 5000) (MkTimeValue 1 Seconds) true)).
      simpl. auto.
    + apply (Hleast (Scenario.extent (-1) 6000)); [exact I|].
      intros ta [<- | [<- | [<- | []]]]; simpl; lia.
Defined.

End Hull.

(** ** The steps of the current extent *)

Section StepsInSync.

Import TimeSliderController.

Lemma stepOf_same (c c' : t) (ms : Z) :
  m_fullTimeExtent c' = m_fullTimeExtent c -> m_intervalMS c' = m_intervalMS c ->
  stepOf c' ms = stepOf c ms.
Proof. unfold stepOf, fullExtentStart. now intros -> ->. Qed.

Lemma currentTimeExtent_same (c c' : t) :
  m_geoView c' = m_geoView c -> m_fullTimeExtent c' = m_fullTimeExtent c ->
  currentTimeExtent c' = currentTimeExtent c.
Proof. unfold currentTimeExtent. now intros -> ->. Qed.

Lemma stepsInSync_same (c c' : t) :
  m_geoView c' = m_geoView c -> m_fullTimeExtent c' = m_fullTimeExtent c ->
  m_intervalMS c' = m_intervalMS c ->
  m_startStep c' = m_startStep c -> m_endStep c' = m_endStep c ->
  stepsInSync c -> stepsInSync c'.
Proof.
  unfold stepsInSync, currentExtentStart, currentExtentEnd. intros V F I S E H Hne.
  rewrite (currentTimeExtent_same c c' V F), !(stepOf_same c c' _ F I), S, E.
  apply H. now rewrite <- F.
Qed.

Lemma calculateStepPositions_in_sync (c c' : t) :
  calculateStepPositions c = Some c' -> stepsInSync c'.
Proof.
  intros H Hne.
  pose proof (calculateStepPositions_frame c c' H) as (V & F & I & _).
  rewrite F in Hne. destruct (calculateStepPositions_steps c c' H Hne) as [Hs He].
  unfold currentExtentStart, currentExtentEnd in *.
  rewrite (currentTimeExtent_same c c' V F), !(stepOf_same c c' _ F I). auto.
Qed.

Lemma emit_in_sync (s : Signal) (c : t) : stepsInSync c -> stepsInSync (emit s c).
Proof. now apply stepsInSync_same. Qed.

Lemma initializeTimeProperties_in_sync (rows : LayerListModel) (c c' : t) :
  initializeTimeProperties (Some rows) c = Some c' ->
  timeAwareLayers rows <> [] -> stepsInSync c'.
Proof.
  unfold initializeTimeProperties. intros H Hne.
  destruct (timeAwareLayers rows) as [|a l]; [contradiction|].
  destruct (fold_left visit (a :: l) (c, EmptyTimeValue)) as [c1 ts].
  apply bind_Some in H as (q & _ & H). apply bind_Some in H as (n & _ & H).
  apply bind_Some in H as (c3 & H3 & H). apply bind_Some in H as (c4 & H4 & H).
  injection H as <-. apply emit_in_sync.
  apply calculateStepPositions_in_sync in H3.
  apply setStepTimes_frame in H4 as (V & F & I & _ & S & E & _).
  now apply (stepsInSync_same c3 c4).
Qed.

(** After each step setter, after [setGeoView] and after a recomputation
    over at least one participating layer, the start and end step are the
    steps of the bounds of the current extent (the view's extent, or the full
    extent when the view shows none). *)
Theorem steps_follow_the_current_extent (c c' : t) :
  (forall k, setStartInterval k c = Some c' -> stepsInSync c')
  /\ (forall k, setEndInterval k c = Some c' -> stepsInSync c')
  /\ (forall k j, setStartAndEndIntervals k j c = Some c' -> stepsInSync c')
  /\ (forall geoView layers, setGeoView geoView layers c = Some c' -> stepsInSync c')
  /\ (forall rows, initializeTimeProperties (Some rows) c = Some c' ->
                   timeAwareLayers rows <> [] -> stepsInSync c').
Proof.
  assert (Guarded : TimeExtent.isEmpty (m_fullTimeExtent c) = true -> stepsInSync c).
  { intros E Hne. congruence. }
  split; [|split; [|split; [|split]]].
  - intros k H. unfold setStartInterval in H.
    destruct (TimeExtent.isEmpty (m_fullTimeExtent c)) eqn:E;
      [injection H as <-; now apply Guarded|].
    apply bind_Some in H as (d & _ & H). apply bind_Some in H as (c1 & H1 & H).
    injection H as <-. apply emit_in_sync. now apply calculateStepPositions_in_sync in H1.
  - intros k H. unfold setEndInterval in H.
    destruct (TimeExtent.isEmpty (m_fullTimeExtent c)) eqn:E;
      [injection H as <-; now apply Guarded|].
    apply bind_Some in H as (d & _ & H). apply bind_Some in H as (c1 & H1 & H).
    injection H as <-. apply emit_in_sync. now apply calculateStepPositions_in_sync in H1.
  - intros k j H. unfold setStartAndEndIntervals in H.
    destruct (TimeExtent.isEmpty (m_fullTimeExtent c)) eqn:E;
      [injection H as <-; now apply Guarded|].
    apply bind_Some in H as (d & _ & H). apply bind_Some in H as (d' & _ & H).
    apply bind_Some in H as (c1 & H1 & H).
    injection H as <-. apply emit_in_sync. now apply calculateStepPositions_in_sync in H1.
  - intros geoView layers H. unfold setGeoView in H.
    apply bind_Some in H as (c1 & _ & H). apply bind_Some in H as (c2 & H2 & H).
    injection H as <-. apply emit_in_sync. now apply calculateStepPositions_in_sync in H2.
  - intros rows. apply initializeTimeProperties_in_sync.
Qed.

Lemma steps_follow_the_current_extent_witness :
  exists c',
    setStartAndEndIntervals 1 2 Scenario.bySeconds = Some c'
    /\ currentTimeExtent c' = Scenario.extent 1000 2000
    /\ m_startStep c' = 1 /\ m_endStep c' = 2
    /\ stepOf c' 1000 = Some (m_startStep c')
    /\ stepOf c' 2000 = Some (m_endStep c').
Proof.
  eexists. split; [vm_compute; reflexivity|]. do 3 (split; [reflexivity|]).
  apply (proj1 (proj2 (proj2 (steps_follow_the_current_extent Scenario.bySeconds
           (make (MapQuickView (Scenario.extent 1000 2000)) (Scenario.extent 0 3000) 1000 4
              [QDateTime.MSecs 0; QDateTime.MSecs 1000; QDateTime.MSecs 2000;
               QDateTime.MSecs 3000]
              1 2 [startStepChanged; endStepChanged; currentTimeExtentChanged]
              [Scenario.extent 1000 2000])))) 1 2).
  - vm_compute. reflexivity.
  - reflexivity.
Defined.

Lemma Qdiv_le_mono (a b i : Q) : (0 < i)%Q -> (a <= b)%Q -> (a / i <= b / i)%Q.
Proof.
  intros Hi Hab. unfold Qdiv. apply Qmult_le_compat_r; [assumption|].
  apply Qlt_le_weak, Qinv_lt_0_compat, Hi.
Qed.

Lemma step_bounds (a b range : Z) (i : Q) :
  (0 < i)%Q -> 0 <= a -> a <= b -> b <= range ->
  0 <= Cpp.truncate (inject_Z a / i) <= Cpp.truncate (inject_Z b / i)
  /\ Cpp.truncate (inject_Z b / i) <= Qfloor (inject_Z range / i).
Proof.
  intros Hi Ha Hab Hb.
  assert (Ha0 : (0 <= inject_Z a / i)%Q) by (apply Qdiv_nonneg; [apply inject_Z_nonneg|]; easy).
  assert (Hb0 : (0 <= inject_Z b / i)%Q)
    by (apply Qdiv_nonneg; [apply inject_Z_nonneg; lia | easy]).
  assert (Hab' : (inject_Z a / i <= inject_Z b / i)%Q)
    by (apply Qdiv_le_mono; [easy | now rewrite <- Zle_Qle]).
  assert (Hbr : (inject_Z b / i <= inject_Z range / i)%Q)
    by (apply Qdiv_le_mono; [easy | now rewrite <- Zle_Qle]).
  rewrite !truncate_nonneg by assumption. repeat split.
  - rewrite <- (Qfloor_Z 0). now apply Qfloor_resp_le.
  - now apply Qfloor_resp_le.
  - now apply Qfloor_resp_le.
Qed.

(** After a recomputation over at least one participating layer, with a
    positive interval, when the current extent lies within the full extent
    and does not end before it starts, the start and end step are step
    indices in their order; with no view, or a view that shows no extent,
    the start step is the first index. *)
Theorem steps_within_the_step_indices (rows : LayerListModel) (c c' : t)
        (s e : QDateTime.t) :
  initializeTimeProperties (Some rows) c = Some c' ->
  timeAwareLayers rows <> [] ->
  m_fullTimeExtent c' = Extent s e ->
  (0 < m_intervalMS c')%Q ->
  QDateTime.toMSecsSinceEpoch s <= QDateTime.toMSecsSinceEpoch (currentExtentStart c') ->
  QDateTime.toMSecsSinceEpoch (currentExtentStart c')
  <= QDateTime.toMSecsSinceEpoch (currentExtentEnd c') ->
  QDateTime.toMSecsSinceEpoch (currentExtentEnd c') <= QDateTime.toMSecsSinceEpoch e ->
  0 <= m_startStep c' <= m_endStep c'
  /\ m_endStep c' <= m_numberOfSteps c' - 1
  /\ (currentTimeExtent c' = m_fullTimeExtent c' -> m_startStep c' = 0).
Proof.
  intros Hrun Hne Hfull Hi Hs Hse He.
  destruct (initializeTimeProperties_runs rows c c' Hrun Hne)
    as (_ & _ & _ & (q & Hq & Hn) & _).
  assert (Hr : 0 <= rangeMS (m_fullTimeExtent c')).
  { rewrite Hfull. unfold rangeMS. simpl. lia. }
  pose proof (numberOfSteps_formula _ _ _ _ Hr Hi Hq Hn) as Hcount.
  destruct (initializeTimeProperties_in_sync rows c c' Hrun Hne) as [Sstart Send];
    [now rewrite Hfull|].
  apply stepOf_Some in Sstart, Send.
  assert (Hfs : QDateTime.toMSecsSinceEpoch (fullExtentStart c') = QDateTime.toMSecsSinceEpoch s)
    by (unfold fullExtentStart; now rewrite Hfull).
  assert (Hrange : rangeMS (m_fullTimeExtent c')
                   = QDateTime.toMSecsSinceEpoch e - QDateTime.toMSecsSinceEpoch s)
    by (now rewrite Hfull).
  destruct (step_bounds
              (QDateTime.toMSecsSinceEpoch (currentExtentStart c')
               - QDateTime.toMSecsSinceEpoch (fullExtentStart c'))
              (QDateTime.toMSecsSinceEpoch (currentExtentEnd c')
               - QDateTime.toMSecsSinceEpoch (fullExtentStart c'))
              (rangeMS (m_fullTimeExtent c')) (m_intervalMS c') Hi) as (Hlo & Hhi); try lia.
  rewrite <- Sstart, <- Send in Hlo. rewrite <- Send in Hhi.
  split; [exact Hlo|]. split; [lia|].
  intros Hcur. unfold currentExtentStart in Sstart.
  rewrite Hcur in Sstart.
  rewrite Sstart. unfold fullExtentStart. rewrite Z.sub_diag.
  rewrite (truncate_comp _ (inject_Z 0)); [apply truncate_inject_Z|].
  change (inject_Z 0) with 0%Q. field. lra.
Qed.

Lemma steps_within_the_step_indices_witness :
  exists c',
    initializeTimeProperties (Some Scenario.fromOneSecond)
      (Scenario.showing (Scenario.extent 2500 4000)) = Some c'
    /\ m_startStep c' = 1 /\ m_endStep c' = 3 /\ m_numberOfSteps c' = 5
    /\ 0 <= m_startStep c' <= m_endStep c'
    /\ m_endStep c' <= m_numberOfSteps c' - 1.
Proof.
  eexists. split; [vm_compute; reflexivity|]. do 3 (split; [reflexivity|]).
  destruct (steps_within_the_step_indices Scenario.fromOneSecond
              (Scenario.showing (Scenario.extent 2500 4000))
              (make (MapQuickView (Scenario.extent 2500 4000)) (Scenario.extent 1000 5000)
                 1000 5
                 [QDateTime.MSecs 1000; QDateTime.MSecs 2000; QDateTime.MSecs 3000;
                  QDateTime.MSecs 4000; QDateTime.MSecs 5000]
                 1 3
                 [fullTimeExtentChanged; numberOfStepsChanged; startStepChanged;
                  endStepChanged; stepTimesChanged; currentTimeExtentChanged] [])
              (QDateTime.MSecs 1000) (QDateTime.MSecs 5000)) as (H1 & H2 & _).
  - vm_compute. reflexivity.
  - vm_compute. discriminate.
  - reflexivity.
  - reflexivity.
  - vm_compute. discriminate.
  - vm_compute. discriminate.
  - vm_compute. discriminate.
  - split; [exact H1 | exact H2].
Defined.

End StepsInSync.

(** ** Where the step times lie *)

Section StepTimesRange.

Import TimeSliderController.





End StepTimesRange.

(** ** The estimated interval *)

Section Estimate.

Import TimeSliderController.

Lemma Qfloor_below (q : Q) (z : Z) : (q < inject_Z z)%Q -> Qfloor q < z.
Proof.
  intros H. pose proof (Qfloor_le q) as Hf. rewrite Zlt_Qlt. lra.
Qed.

Lemma steps_below (range : Q) (i : Q) (z : Z) :
  (0 < i)%Q -> (range < inject_Z z * i)%Q -> Qfloor (range / i) + 1 <= z.
Proof.
  intros Hi H. assert (Qfloor (range / i) < z); [|lia].
  apply Qfloor_below. now apply Qlt_shift_div_r.
Qed.

(** The unit [toTimeUnit] gives, band by band: it is never milliseconds,
    weeks, months or decades, and a negative range counts as seconds. *)
Theorem toTimeUnit_bands (range : Q) :
  (toTimeUnit range = Seconds <-> (range < 60000)%Q)
  /\ (toTimeUnit range = Minutes <-> (60000 <= range)%Q /\ (range < 3600000)%Q)
  /\ (toTimeUnit range = Hours <-> (3600000 <= range)%Q /\ (range < 86400000)%Q)
  /\ (toTimeUnit range = Days <-> (86400000 <= range)%Q /\ (range < 365 * 86400000)%Q)
  /\ (toTimeUnit range = Years
      <-> (365 * 86400000 <= range)%Q /\ (range <= 100 * 365 * 86400000)%Q)
  /\ (toTimeUnit range = Centuries <-> (100 * 365 * 86400000 < range)%Q)
  /\ toTimeUnit range <> Milliseconds /\ toTimeUnit range <> Weeks
  /\ toTimeUnit range <> Months /\ toTimeUnit range <> Decades
  /\ toTimeUnit range <> Unknown.
Proof.
  unfold toTimeUnit.
  repeat match goal with
         | |- context [Cpp.Qltb ?a ?b] =>
             let E := fresh "E" in
             destruct (Cpp.Qltb a b) eqn:E;
             [apply Qltb_lt in E | apply Qltb_ge in E]
         end;
    repeat split; intros; try discriminate; try reflexivity; try lra;
    exfalso; intuition lra.
Qed.

(** The range behind each unit [toTimeUnit] can give. *)
Lemma toTimeUnit_range (range : Q) :
  match toTimeUnit range with
  | Seconds => (range < 60000)%Q
  | Minutes => (60000 <= range)%Q /\ (range < 3600000)%Q
  | Hours => (3600000 <= range)%Q /\ (range < 86400000)%Q
  | Days => (86400000 <= range)%Q /\ (range < 365 * 86400000)%Q
  | Years => (365 * 86400000 <= range)%Q /\ (range <= 100 * 365 * 86400000)%Q
  | Centuries => (100 * 365 * 86400000 < range)%Q
  | _ => False
  end.
Proof.
  unfold toTimeUnit.
  repeat match goal with
         | |- context [Cpp.Qltb ?a ?b] =>
             let E := fresh "E" in
             destruct (Cpp.Qltb a b) eqn:E;
             [apply Qltb_lt in E | apply Qltb_ge in E]
         end; try split; lra.
Qed.

Lemma estimate_gives_few_steps (range : Z) :
  0 <= range <= 100 * 365 * 86400000 ->
  (1000 <= toMilliseconds (MkTimeValue 1 (toTimeUnit (inject_Z range))))%Q
  /\ Qfloor (inject_Z range
             / toMilliseconds (MkTimeValue 1 (toTimeUnit (inject_Z range)))) + 1 <= 365.
Proof.
  intros [H0 H100].
  assert (Hq0 : (0 <= inject_Z range)%Q) by now apply inject_Z_nonneg.
  assert (Hq100 : (inject_Z range <= inject_Z (100 * 365 * 86400000))%Q)
    by now rewrite <- Zle_Qle.
  change (inject_Z (100 * 365 * 86400000)) with 3153600000000%Q in Hq100.
  pose proof (toTimeUnit_range (inject_Z range)) as Hband.
  destruct (toTimeUnit (inject_Z range)) eqn:U; try contradiction.
  - lra.
  - destruct Hband as [Ylo Yhi].
    split; [vm_compute; discriminate|].
    assert (Qfloor (inject_Z range / toMilliseconds (MkTimeValue 1 Years)) + 1 <= 102); [|lia].
    apply steps_below; [reflexivity|].
    change (inject_Z 102 * toMilliseconds (MkTimeValue 1 Years))%Q
      with (inject_Z 102 * (1 * 86400000 * 365))%Q. change (inject_Z 102) with 102%Q. lra.
  - destruct Hband as [Dlo Dhi].
    split; [vm_compute; discriminate|].
    apply steps_below; [reflexivity|].
    change (inject_Z 365 * toMilliseconds (MkTimeValue 1 Days))%Q
      with (365 * (1 * 86400000))%Q. lra.
  - destruct Hband as [Hlo Hhi].
    split; [vm_compute; discriminate|].
    assert (Qfloor (inject_Z range / toMilliseconds (MkTimeValue 1 Hours)) + 1 <= 24); [|lia].
    apply steps_below; [reflexivity|].
    change (inject_Z 24 * toMilliseconds (MkTimeValue 1 Hours))%Q
      with (24 * (1 * 3600000))%Q. lra.
  - destruct Hband as [Mlo Mhi].
    split; [vm_compute; discriminate|].
    assert (Qfloor (inject_Z range / toMilliseconds (MkTimeValue 1 Minutes)) + 1 <= 60); [|lia].
    apply steps_below; [reflexivity|].
    change (inject_Z 60 * toMilliseconds (MkTimeValue 1 Minutes))%Q
      with (60 * (1 * 60000))%Q. lra.
  - split; [vm_compute; discriminate|].
    assert (Qfloor (inject_Z range / toMilliseconds (MkTimeValue 1 Seconds)) + 1 <= 60); [|lia].
    apply steps_below; [reflexivity|].
    change (inject_Z 60 * toMilliseconds (MkTimeValue 1 Seconds))%Q
      with (60 * (1 * 1000))%Q. lra.
Qed.

(** When no participating layer reports an interval and the full extent
    spans at most a hundred years of 365 days, a recomputation ends with an
    interval of at least one second and with between 1 and 365 steps. *)
Theorem estimated_interval_gives_few_steps (rows : LayerListModel) (c c' : t) :
  initializeTimeProperties (Some rows) c = Some c' ->
  timeAwareLayers rows <> [] ->
  (forall v, In v (layerIntervals rows) -> TimeValue.isEmpty v = true) ->
  0 <= rangeMS (m_fullTimeExtent c') <= 100 * 365 * 86400000 ->
  (1000 <= m_intervalMS c')%Q /\ 1 <= m_numberOfSteps c' <= 365.
Proof.
  intros Hrun Hne Hnone Hrange.
  assert (Hi : m_intervalMS c'
               = toMilliseconds
                   (MkTimeValue 1 (toTimeUnit (inject_Z (rangeMS (m_fullTimeExtent c')))))).
  { apply (intervalMS_of_estimate rows c c' Hrun Hne).
    unfold selectedInterval. now rewrite coarser_fold_empty. }
  destruct (estimate_gives_few_steps _ Hrange) as [Hms Hsteps].
  rewrite <- Hi in Hms, Hsteps.
  destruct (initializeTimeProperties_runs rows c c' Hrun Hne)
    as (_ & _ & _ & (q & Hq & Hn) & _).
  assert (Hpos : (0 < m_intervalMS c')%Q) by lra.
  pose proof (numberOfSteps_formula _ _ _ _ (proj1 Hrange) Hpos Hq Hn) as Hcount.
  split; [exact Hms|]. rewrite Hcount.
  assert (0 <= Qfloor (inject_Z (rangeMS (m_fullTimeExtent c')) / m_intervalMS c')); [|lia].
  rewrite <- (Qfloor_Z 0). apply Qfloor_resp_le.
  apply Qdiv_nonneg; [apply inject_Z_nonneg; lia | exact Hpos].
Qed.

Lemma estimated_interval_gives_few_steps_witness :
  exists c',
    initializeTimeProperties (Some Scenario.noInterval) Scenario.idle = Some c'
    /\ m_numberOfSteps c' = 2
    /\ (1000 <= m_intervalMS c')%Q /\ 1 <= m_numberOfSteps c' <= 365.
Proof.
  eexists. split; [vm_compute; reflexivity|]. split; [reflexivity|].
  refine (estimated_interval_gives_few_steps Scenario.noInterval Scenario.idle _ _ _ _ _).
  - vm_compute. reflexivity.
  - vm_compute. discriminate.
  - intros v [<- | [<- | []]]; reflexivity.
  - vm_compute. split; discriminate.
Defined.

End Estimate.

(** ** What the step setters do to the view *)

Section Setters.

Import TimeSliderController.

Lemma setTimeExtent_trace (e : TimeExtent) (c : t) :
  m_geoView c <> NoGeoView ->
  setTimeExtentCalls (setTimeExtent e c) = setTimeExtentCalls c ++ [e]
  /\ emitted (setTimeExtent e c) = emitted c
  /\ m_intervalMS (setTimeExtent e c) = m_intervalMS c
  /\ (forall e', m_geoView (setTimeExtent e' (setTimeExtent e c))
                 = m_geoView (setTimeExtent e' c))
  /\ m_geoView (setTimeExtent e c) <> NoGeoView.
Proof.
  unfold setTimeExtent. intros H.
  destruct (m_geoView c) eqn:V; [contradiction | |]; simpl; repeat split; discriminate.
Qed.

(** What is left once the view's setter has been called and the steps have
    been computed again. *)
Lemma pushed (e : TimeExtent) (c c1 : t) :
  m_geoView c <> NoGeoView ->
  TimeExtent.isEmpty (m_fullTimeExtent c) = false ->
  calculateStepPositions (setTimeExtent e c) = Some c1 ->
  setTimeExtentCalls c1 = setTimeExtentCalls c ++ [e]
  /\ emitted c1 = emitted c ++ [startStepChanged; endStepChanged]
  /\ axis c1 = axis c.
Proof.
  intros Hview Hfull H.
  destruct (setTimeExtent_trace e c Hview) as (Hcalls & Hemitted & _).
  pose proof (calculateStepPositions_emitted _ _ H) as E.
  pose proof (calculateStepPositions_axis _ _ H) as A.
  apply calculateStepPositions_frame in H as (_ & _ & _ & _ & _ & C).
  rewrite fullTimeExtent_setTimeExtent, Hfull, Hemitted in E.
  rewrite setTimeExtent_axis in A. rewrite Hcalls in C.
  repeat split; assumption.
Qed.

(** With a view attached and a non-empty full extent, a step setter calls
    the view's setter once: [setStartInterval] with the new start and the
    end of the current extent as it was, [setEndInterval] with the start as
    it was and the new end, [setStartAndEndIntervals] with both new.  The
    signals are [startStepChanged], [endStepChanged] and
    [currentTimeExtentChanged]; the full extent, the interval, the step
    count and the step times are left as they were. *)
Theorem step_setters_push_one_extent (c c' : t) :
  m_geoView c <> NoGeoView ->
  TimeExtent.isEmpty (m_fullTimeExtent c) = false ->
  let pushes (e : TimeExtent) :=
    setTimeExtentCalls c' = setTimeExtentCalls c ++ [e]
    /\ emitted c'
       = emitted c ++ [startStepChanged; endStepChanged; currentTimeExtentChanged]
    /\ axis c' = axis c in
  (forall k, setStartInterval k c = Some c' ->
     exists d, timeOf c k = Some d /\ pushes (Extent d (currentExtentEnd c)))
  /\ (forall k, setEndInterval k c = Some c' ->
     exists d, timeOf c k = Some d /\ pushes (Extent (currentExtentStart c) d))
  /\ (forall k j, setStartAndEndIntervals k j c = Some c' ->
     exists d d', timeOf c k = Some d /\ timeOf c j = Some d' /\ pushes (Extent d d')).
Proof.
  intros Hview Hfull. cbv zeta.
  assert (Done : forall e c1,
             calculateStepPositions (setTimeExtent e c) = Some c1 ->
             setTimeExtentCalls (emit currentTimeExtentChanged c1)
             = setTimeExtentCalls c ++ [e]
             /\ emitted (emit currentTimeExtentChanged c1)
                = emitted c ++ [startStepChanged; endStepChanged; currentTimeExtentChanged]
             /\ axis (emit currentTimeExtentChanged c1) = axis c).
  { intros e c1 H1.
    destruct (pushed e c c1 Hview Hfull H1) as (Hcalls & Hem & Hax).
    repeat split; try assumption.
    simpl. rewrite Hem, <- app_assoc. reflexivity. }
  split; [|split].
  - intros k H. unfold setStartInterval in H. rewrite Hfull in H.
    apply bind_Some in H as (d & Hd & H). apply bind_Some in H as (c1 & H1 & H).
    injection H as <-. exists d. split; [exact Hd | now apply Done].
  - intros k H. unfold setEndInterval in H. rewrite Hfull in H.
    apply bind_Some in H as (d & Hd & H). apply bind_Some in H as (c1 & H1 & H).
    injection H as <-. exists d. split; [exact Hd | now apply Done].
  - intros k j H. unfold setStartAndEndIntervals in H. rewrite Hfull in H.
    apply bind_Some in H as (d & Hd & H). apply bind_Some in H as (d' & Hd' & H).
    apply bind_Some in H as (c1 & H1 & H).
    injection H as <-. exists d, d'. split; [exact Hd|]. split; [exact Hd' | now apply Done].
Qed.

Lemma step_setters_push_one_extent_witness :
  exists c',
    setStartInterval 2 Scenario.bySeconds = Some c'
    /\ setTimeExtentCalls c' = [Scenario.extent 2000 3000]
    /\ exists d, timeOf Scenario.bySeconds 2 = Some d
                 /\ setTimeExtentCalls c'
                    = setTimeExtentCalls Scenario.bySeconds
                      ++ [Extent d (currentExtentEnd Scenario.bySeconds)].
Proof.
  eexists. split; [vm_compute; reflexivity|]. split; [reflexivity|].
  destruct (proj1 (step_setters_push_one_extent Scenario.bySeconds
              (make (MapQuickView (Scenario.extent 2000 3000)) (Scenario.extent 0 3000) 1000 4
                 [QDateTime.MSecs 0; QDateTime.MSecs 1000; QDateTime.MSecs 2000;
                  QDateTime.MSecs 3000]
                 2 3 [startStepChanged; endStepChanged; currentTimeExtentChanged]
                 [Scenario.extent 2000 3000])
              ltac:(discriminate) ltac:(reflexivity)) 2 ltac:(vm_compute; reflexivity))
    as (d & Hd & Hcalls & _).
  exists d. split; [exact Hd | exact Hcalls].
Defined.



End Setters.

(** ** The rows a recomputation reads *)

Section Rows.

Import TimeSliderController.

Lemma timeAwareLayers_app (rows rows' : LayerListModel) :
  timeAwareLayers (rows ++ rows') = timeAwareLayers rows ++ timeAwareLayers rows'.
Proof.
  induction rows as [|row rows IH]; simpl; [reflexivity|].
  destruct (participating row); simpl; now rewrite IH.
Qed.

Lemma initializeTimeProperties_participants (rows rows' : LayerListModel) (c : t) :
  timeAwareLayers rows = timeAwareLayers rows' ->
  initializeTimeProperties (Some rows) c = initializeTimeProperties (Some rows') c.
Proof. unfold initializeTimeProperties. now intros ->. Qed.

(** A row takes part in a recomputation exactly when it holds a time-aware
    layer that has loaded or failed to load, filters by time and is visible;
    a row that does not take part can be added or removed anywhere without
    changing the result of the recomputation. *)
Theorem rows_that_do_not_participate (row : option Layer.t) :
  (forall ta, participating row = Some ta
              <-> exists layer,
                    row = Some layer /\ Layer.timeAware layer = Some ta
                    /\ (Layer.loadStatus layer = Loaded
                        \/ Layer.loadStatus layer = FailedToLoad)
                    /\ TimeAware.isTimeFilteringEnabled ta = true
                    /\ Layer.isVisible layer = true)
  /\ (participating row = None ->
      forall (before after : LayerListModel) (c : t),
        initializeTimeProperties (Some (before ++ row :: after)) c
        = initializeTimeProperties (Some (before ++ after)) c).
Proof.
  split.
  - intros ta. unfold participating. split.
    + destruct row as [layer|]; [|discriminate].
      destruct (Layer.timeAware layer) as [ta'|] eqn:T; [|discriminate].
      destruct (Layer.loadStatus layer) eqn:L; try discriminate;
        destruct (TimeAware.isTimeFilteringEnabled ta') eqn:F; try discriminate;
        destruct (Layer.isVisible layer) eqn:V; try discriminate;
        simpl; intros [= <-]; exists layer; auto 10.
    + intros (layer & -> & -> & HL & -> & ->). simpl.
      destruct HL as [-> | ->]; reflexivity.
  - intros Hrow before after c. apply initializeTimeProperties_participants.
    rewrite !timeAwareLayers_app. simpl. now rewrite Hrow.
Qed.

Lemma rows_that_do_not_participate_witness :
  initializeTimeProperties
    (Some (Scenario.everySecond
           ++ Some (Layer.make Loading true
                      (Some (TimeAware.make (Scenario.extent 0 9000)
                               (MkTimeValue 1 Days) true)))
           :: Scenario.shorter))
    Scenario.idle
  = initializeTimeProperties (Some (Scenario.everySecond ++ Scenario.shorter)) Scenario.idle.
Proof.
  apply (proj2 (rows_that_do_not_participate
                  (Some (Layer.make Loading true
                           (Some (TimeAware.make (Scenario.extent 0 9000)
                                    (MkTimeValue 1 Days) true)))))).
  reflexivity.
Defined.

End Rows.

(** ** Recomputations without a defined result *)

Section Undefined.

Import TimeSliderController.



End Undefined.

(** ** Attaching a view *)

Section Attaching.

Import TimeSliderController.

Lemma visit_calls (l : list TimeAware.t) (c : t) (v : TimeValue) :
  setTimeExtentCalls (fst (fold_left visit l (c, v))) = setTimeExtentCalls c.
Proof.
  revert c v. induction l as [|a l IH]; intros c v; simpl; [reflexivity|].
  rewrite IH. unfold setFullTimeExtent. destruct (TimeExtent_eq _ _); reflexivity.
Qed.

Lemma setNumberOfSteps_calls (n : Z) (c : t) :
  setTimeExtentCalls (setNumberOfSteps n c) = setTimeExtentCalls c.
Proof. unfold setNumberOfSteps. destruct (n =? m_numberOfSteps c); reflexivity. Qed.

Lemma initializeTimeProperties_view (layers : option LayerListModel) (c c' : t) :
  initializeTimeProperties layers c = Some c' ->
  m_geoView c' = m_geoView c /\ setTimeExtentCalls c' = setTimeExtentCalls c
  /\ exists signals, emitted c' = emitted c ++ signals.
Proof.
  intros H.
  assert (Same : c' = c ->
            m_geoView c' = m_geoView c /\ setTimeExtentCalls c' = setTimeExtentCalls c
            /\ exists signals, emitted c' = emitted c ++ signals).
  { intros ->. repeat split. exists []. now rewrite app_nil_r. }
  destruct layers as [rows|]; [|injection H as <-; now apply Same].
  destruct (timeAwareLayers rows) as [|a l] eqn:Hl.
  - rewrite initializeTimeProperties_skips in H by exact Hl. injection H as <-.
    now apply Same.
  - assert (Hne : timeAwareLayers rows <> []) by (rewrite Hl; discriminate).
    destruct (initializeTimeProperties_emitted rows c c' H Hne) as (k & Hk & _).
    destruct (initializeTimeProperties_runs rows c c' H Hne) as (_ & V & _).
    split; [exact V|]. split; [|eexists; exact Hk].
    unfold initializeTimeProperties in H. rewrite Hl in H.
    pose proof (visit_calls (a :: l) c EmptyTimeValue) as Hcalls.
    destruct (fold_left visit (a :: l) (c, EmptyTimeValue)) as [c1 ts].
    apply bind_Some in H as (q & _ & H). apply bind_Some in H as (n & _ & H).
    apply bind_Some in H as (c3 & H3 & H). apply bind_Some in H as (c4 & H4 & H).
    injection H as <-.
    apply calculateStepPositions_frame in H3 as (_ & _ & _ & _ & _ & C3).
    apply setStepTimes_frame in H4 as (_ & _ & _ & _ & _ & _ & C4 & _).
    simpl. rewrite C4, C3, setNumberOfSteps_calls. exact Hcalls.
Qed.

(** [setGeoView] attaches the controller to the view it is given, and
    leaves the attachment alone when the view is of neither class.  It calls
    no view setter, ends with [currentTimeExtentChanged], and does not start
    the full extent afresh: the full extent after covers the one before, and
    without operational layers the full extent, the interval, the step
    count and the step times stay as they were. *)
Theorem setGeoView_attaches (geoView : GeoView) (layers : option LayerListModel)
        (c c' : t) :
  setGeoView geoView layers c = Some c' ->
  m_geoView c' = match geoView with NoGeoView => m_geoView c | _ => geoView end
  /\ setTimeExtentCalls c' = setTimeExtentCalls c
  /\ (exists signals, emitted c' = emitted c ++ signals ++ [currentTimeExtentChanged])
  /\ contains (m_fullTimeExtent c') (m_fullTimeExtent c)
  /\ (geoView = NoGeoView \/ layers = None -> axis c' = axis c).
Proof.
  unfold setGeoView. intros H.
  apply bind_Some in H as (c1 & H1 & H). apply bind_Some in H as (c2 & H2 & H).
  injection H as <-.
  pose proof (calculateStepPositions_emitted _ _ H2) as E2.
  pose proof (calculateStepPositions_axis _ _ H2) as A2.
  apply calculateStepPositions_frame in H2 as (V2 & F2 & _ & _ & _ & C2).
  assert (H1' : initializeTimeProperties
                  (match geoView with NoGeoView => None | _ => layers end)
                  (match geoView with NoGeoView => c | _ => with_geoView geoView c end)
                = Some c1).
  { destruct geoView; [exact H1 | |]; destruct layers; exact H1. }
  destruct (initializeTimeProperties_view _ _ _ H1') as (V1 & C1 & (signals & E1)).
  pose proof (initializeTimeProperties_contains _ _ _ H1') as W1.
  simpl. rewrite V2, V1, C2, C1, F2, E2, E1.
  split; [now destruct geoView|]. split; [now destruct geoView|]. split; [|split].
  - exists (signals ++ (if TimeExtent.isEmpty (m_fullTimeExtent c1) then []
                       else [startStepChanged; endStepChanged])).
    rewrite <- !app_assoc. now destruct geoView.
  - now destruct geoView.
  - intros Hno. unfold axis in *. simpl. rewrite A2.
    assert (E : c1 = match geoView with NoGeoView => c | _ => with_geoView geoView c end).
    { destruct Hno as [-> | ->]; [now injection H1' as <-|].
      destruct geoView; now injection H1' as <-. }
    rewrite E. now destruct geoView.
Qed.

Lemma setGeoView_attaches_witness :
  initializeTimeProperties (Some Scenario.everySecond) Scenario.idle
  = Some Scenario.idleBySeconds
  /\ exists c',
       setGeoView (SceneQuickView (Scenario.extent 1000 2000)) (Some Scenario.shorter)
         Scenario.idleBySeconds = Some c'
       /\ m_geoView c' = SceneQuickView (Scenario.extent 1000 2000)
       /\ m_fullTimeExtent c' = Scenario.extent 0 3000
       /\ m_startStep c' = 1 /\ m_endStep c' = 2.
Proof.
  split; [vm_compute; reflexivity|].
  eexists. split; [vm_compute; reflexivity|]. split; [|repeat split].
  apply (proj1 (setGeoView_attaches (SceneQuickView (Scenario.extent 1000 2000))
                  (Some Scenario.shorter) Scenario.idleBySeconds
                  (make (SceneQuickView (Scenario.extent 1000 2000)) (Scenario.extent 0 3000)
                     1000 4
                     [QDateTime.MSecs 0; QDateTime.MSecs 1000; QDateTime.MSecs 2000;
                      QDateTime.MSecs 3000]
                     1 2
                     [fullTimeExtentChanged; numberOfStepsChanged; startStepChanged;
                      endStepChanged; stepTimesChanged; currentTimeExtentChanged;
                      startStepChanged; endStepChanged; stepTimesChanged;
                      currentTimeExtentChanged; startStepChanged; endStepChanged;
                      currentTimeExtentChanged] [])
                  ltac:(vm_compute; reflexivity))).
Defined.

End Attaching.

(** ** The guarded setters of the steps *)

Section GuardedSetters.

Import TimeSliderController.

(** [setStartStep] and [setEndStep] store the steps they are given and
    emit a signal only for a step that was different; called again with the
    same steps they change nothing.  They end with the same members as
    [calculateStepPositions] does for the same steps, which emits both
    signals whether or not a step changed. *)
Theorem guarded_step_setters (c : t) (s e : Z) :
  let c' := setEndStep e (setStartStep s c) in
  m_startStep c' = s /\ m_endStep c' = e
  /\ axis c' = axis c /\ m_geoView c' = m_geoView c
  /\ setTimeExtentCalls c' = setTimeExtentCalls c
  /\ emitted c'
     = emitted c
       ++ (if m_startStep c =? s then [] else [startStepChanged])
       ++ (if m_endStep c =? e then [] else [endStepChanged])
  /\ setEndStep e (setStartStep s c') = c'
  /\ (forall c2,
        calculateStepPositions c = Some c2 ->
        TimeExtent.isEmpty (m_fullTimeExtent c) = false ->
        m_startStep c2 = s -> m_endStep c2 = e ->
        axis c2 = axis c' /\ m_geoView c2 = m_geoView c'
        /\ emitted c2 = emitted c ++ [startStepChanged; endStepChanged]).
Proof.
  cbv zeta.
  assert (Main : m_startStep (setEndStep e (setStartStep s c)) = s
                 /\ m_endStep (setEndStep e (setStartStep s c)) = e
                 /\ axis (setEndStep e (setStartStep s c)) = axis c
                 /\ m_geoView (setEndStep e (setStartStep s c)) = m_geoView c
                 /\ setTimeExtentCalls (setEndStep e (setStartStep s c))
                    = setTimeExtentCalls c
                 /\ emitted (setEndStep e (setStartStep s c))
                    = emitted c
                      ++ (if m_startStep c =? s then [] else [startStepChanged])
                      ++ (if m_endStep c =? e then [] else [endStepChanged])).
  { unfold setEndStep, setStartStep.
    destruct (m_startStep c =? s) eqn:Es; destruct (m_endStep c =? e) eqn:Ee; simpl;
      rewrite ?Ee; simpl; rewrite ?Z.eqb_eq in *; rewrite ?app_nil_r, <- ?app_assoc;
      repeat split; auto. }
  destruct Main as (Hs & He & Ha & Hv & Hc & Hem).
  repeat (split; [assumption|]). split.
  - assert (Same1 : forall x, m_startStep x = s -> setStartStep s x = x).
    { intros x Hx. unfold setStartStep. now rewrite Hx, Z.eqb_refl. }
    assert (Same2 : forall x, m_endStep x = e -> setEndStep e x = x).
    { intros x Hx. unfold setEndStep. now rewrite Hx, Z.eqb_refl. }
    rewrite (Same1 _ Hs). now apply Same2.
  - intros c2 H Hfull _ _. rewrite Ha, Hv.
    pose proof (calculateStepPositions_axis _ _ H) as A.
    pose proof (calculateStepPositions_emitted _ _ H) as E. rewrite Hfull in E.
    apply calculateStepPositions_frame in H as (V & _). auto.
Qed.

Lemma guarded_step_setters_witness :
  calculateStepPositions Scenario.idleBySeconds
  = Some (emit endStepChanged (emit startStepChanged Scenario.idleBySeconds))
  /\ setEndStep 3 (setStartStep 0 Scenario.idleBySeconds) = Scenario.idleBySeconds
  /\ axis (emit endStepChanged (emit startStepChanged Scenario.idleBySeconds))
     = axis (setEndStep 3 (setStartStep 0 Scenario.idleBySeconds)).
Proof.
  split; [vm_compute; reflexivity|]. split; [reflexivity|].
  destruct (guarded_step_setters Scenario.idleBySeconds 0 3)
    as (_ & _ & _ & _ & _ & _ & _ & H).
  apply (H (emit endStepChanged (emit startStepChanged Scenario.idleBySeconds)));
    [vm_compute; reflexivity | reflexivity | reflexivity | reflexivity].
Defined.

End GuardedSetters.
